(** * A shallow embedding of the user-management service (src/server.js)

    The service is an Express application over one SQLite table.  The
    embedding follows the file top to bottom: the values a request carries,
    the validation chains of [validateUser], the statements sent to the
    storage engine, the six route handlers and the two trailing middlewares.
    Handlers are pure functions that take the environment of one request
    (clock, operating mode, engine fault) and the table, and return the
    response together with the table afterwards. *)

From Stdlib Require Import ZArith List String Ascii Bool Lia.
From Stdlib Require Import Permutation Sorted DecimalString.
Import ListNotations.

Set Warnings "-register-all".

Open Scope string_scope.
Open Scope list_scope.

(** ** The runtime underneath

    What the JavaScript runtime, validator.js and the SQLite engine decide
    for themselves is kept as an interface: IEEE doubles and their
    renderings, the e-mail predicate and normaliser, and the engine's
    coercion of text to numbers. *)

Class Platform : Type := {
  (** a JavaScript number *)
  number : Type;
  (** the number holding an integer rowid *)
  number_of_Z : Z -> number;
  (** [Some z] when the number is an integer the driver binds as INTEGER *)
  int_of_number : number -> option Z;
  (** JavaScript [String(n)] *)
  String_of_number : number -> string;
  (** validator.js [isEmail] *)
  validator_isEmail : string -> bool;
  (** validator.js [normalizeEmail]; [None] is its [false] result *)
  validator_normalizeEmail : string -> option string;
  (** REAL affinity: the double a numeric-looking text converts to *)
  real_of_text : string -> option number;
  (** TEXT affinity: the text a double is rendered as *)
  text_of_real : number -> string;
  (** INTEGER affinity: the rowid a text operand converts to, if any *)
  rowid_of_text : string -> option Z
}.

(** ** JavaScript values *)

Module Js.

(** An exception thrown by a handler, with its [message]. *)
Inductive completion (A : Type) : Type :=
| Normal (a : A)
| Throw (message : string).
Arguments Normal {A} a.
Arguments Throw {A} message.

Definition bind_completion {A B} (c : completion A) (k : A -> completion B)
  : completion B :=
  match c with
  | Normal a => k a
  | Throw m => Throw m
  end.

Section Values.
Context {P : Platform}.

(** A value that arrived as JSON, or that is serialised as JSON.  A
    JavaScript [undefined] is the [None] of [option json]. *)
Inductive json : Type :=
| JNull
| JBool (b : bool)
| JNum (n : number)
| JStr (s : string)
| JArr (l : list json)
| JObj (l : list (string * json)).

Definition value : Type := option json.

Fixpoint lookup (k : string) (l : list (string * json)) : value :=
  match l with
  | [] => None
  | (k', v) :: t => if k' =? k then Some v else lookup k t
  end.

(** [o.k] : reading a property of [undefined] or [null] throws. *)
Definition member (o : value) (k : string) : completion value :=
  match o with
  | None =>
      Throw ("Cannot read properties of undefined (reading '" ++ k ++ "')")
  | Some JNull =>
      Throw ("Cannot read properties of null (reading '" ++ k ++ "')")
  | Some (JObj l) => Normal (lookup k l)
  | Some _ => Normal None
  end.

(** [o[k]] on an object. *)
Definition property (o : json) (k : string) : value :=
  match o with
  | JObj l => lookup k l
  | _ => None
  end.

(** An object literal; [JSON.stringify] leaves out the properties whose
    value is [undefined]. *)
Fixpoint defined_props (ps : list (string * value)) : list (string * json) :=
  match ps with
  | [] => []
  | (k, Some v) :: t => (k, v) :: defined_props t
  | (_, None) :: t => defined_props t
  end.

Definition obj (props : list (string * value)) : json :=
  JObj (defined_props props).

Definition keys (v : json) : list string :=
  match v with
  | JObj l => map fst l
  | _ => []
  end.

(** What [if (v)] takes for true.  JSON has no NaN, so the one falsy
    number is zero, of either sign. *)
Definition truthy (v : json) : bool :=
  match v with
  | JNull => false
  | JBool b => b
  | JNum n =>
      match int_of_number n with
      | Some 0%Z => false
      | _ => true
      end
  | JStr s => negb (s =? "")
  | JArr _ => true
  | JObj _ => true
  end.

(** The message of the TypeError of a conversion that finds no callable
    [toString] or [valueOf] returning a primitive. *)
Definition not_primitive : string :=
  "Cannot convert object to primitive value".

(** JavaScript [String(v)].  [Array.prototype.toString] joins the elements
    with commas and renders [null] elements as the empty string.  A parsed
    object inherits [Object.prototype.toString]; one that carries a
    property [toString] of its own, which is never a function, has nothing
    to convert it and the conversion throws. *)
Fixpoint String_ (v : json) : completion string :=
  match v with
  | JNull => Normal "null"
  | JBool true => Normal "true"
  | JBool false => Normal "false"
  | JNum n => Normal (String_of_number n)
  | JStr s => Normal s
  | JArr l =>
      (fix join (l : list json) : completion string :=
         match l with
         | [] => Normal ""
         | e :: rest =>
             let item := match e with
                         | JNull => Normal ""
                         | _ => String_ e
                         end in
             match rest with
             | [] => item
             | _ :: _ =>
                 bind_completion item (fun s =>
                 bind_completion (join rest) (fun t =>
                 Normal (s ++ "," ++ t)%string))
             end
         end) l
  | JObj props =>
      match lookup "toString" props with
      | Some _ => Throw not_primitive
      | None => Normal "[object Object]"
      end
  end.

(** [s.includes(needle)] *)
Fixpoint includes (needle s : string) : bool :=
  if prefix needle s then true
  else match s with
       | EmptyString => false
       | String _ t => includes needle t
       end.

(** lodash [_.toPath] on a dotted field name. *)
Fixpoint toPath_aux (acc s : string) : list string :=
  match s with
  | EmptyString => [acc]
  | String c t =>
      if Ascii.eqb c "."%char then acc :: toPath_aux "" t
      else toPath_aux (acc ++ String c "") t
  end.

Definition toPath (s : string) : list string := toPath_aux "" s.

(** lodash [_.get] along a path: [undefined] as soon as a step leaves
    the objects.  A field name is always taken as the path [toPath] makes
    of it; lodash takes it as a single key when the object has a key of
    that very name, dots included, and bodies with such a key are outside
    this embedding. *)
Fixpoint get (p : list string) (v : value) : value :=
  match p with
  | [] => v
  | k :: p' =>
      match v with
      | Some (JObj l) => get p' (lookup k l)
      | _ => None
      end
  end.

(** [o[k] = v]: an own property keeps its place, a new one goes last. *)
Fixpoint assign (k : string) (v : json) (l : list (string * json))
  : list (string * json) :=
  match l with
  | [] => [(k, v)]
  | (k', v') :: t =>
      if k' =? k then (k, v) :: t else (k', v') :: assign k v t
  end.

(** lodash [_.set]: a step that is not an object is replaced by a fresh
    one.  (An array on the way is treated as such a step; the field names
    of this service never index one.) *)
Fixpoint set_fields (p : list string) (x : json) (l : list (string * json))
  : list (string * json) :=
  match p with
  | [] => l
  | [k] => assign k x l
  | k :: p' =>
      let inner :=
        match lookup k l with
        | Some (JObj l') => l'
        | _ => []
        end in
      assign k (JObj (set_fields p' x inner)) l
  end.

Definition set (p : list string) (x : json) (o : json) : json :=
  match o with
  | JObj l => JObj (set_fields p x l)
  | _ => o
  end.

End Values.
End Js.

(** ** validator.js: the string predicates and sanitisers of the chains *)

Module Str.

Definition is_digit (c : ascii) : bool :=
  let n := nat_of_ascii c in (48 <=? n)%nat && (n <=? 57)%nat.

Definition is_sign (c : ascii) : bool :=
  Ascii.eqb c "+"%char || Ascii.eqb c "-"%char.

Fixpoint skip_digits (s : string) : string :=
  match s with
  | String c t => if is_digit c then skip_digits t else s
  | EmptyString => s
  end.

Definition skip_sign (s : string) : string :=
  match s with
  | String c t => if is_sign c then t else s
  | EmptyString => s
  end.

(** The regular expression of [isFloat]: an optional sign, optional
    digits, an optional dot followed by any digits, and an optional
    exponent made of e or E, an optional sign and at least one digit. *)
Definition float_regexp (s : string) : bool :=
  let s1 := skip_digits (skip_sign s) in
  let s2 := match s1 with
            | String c t => if Ascii.eqb c "."%char then skip_digits t else s1
            | EmptyString => s1
            end in
  match s2 with
  | EmptyString => true
  | String c t =>
      if Ascii.eqb c "e"%char || Ascii.eqb c "E"%char then
        match skip_sign t with
        | String d t' => is_digit d && (skip_digits t' =? "")
        | EmptyString => false
        end
      else false
  end.

(** [isFloat(str)] with no options. *)
Definition isFloat (s : string) : bool :=
  if (s =? "") || (s =? ".") || (s =? ",") || (s =? "-") || (s =? "+")
  then false
  else float_regexp s.

(** [isLength(str, { min })]; for [min <= 1] the count of bytes and the
    count of characters agree on the answer. *)
Definition isLength (min : nat) (s : string) : bool :=
  (min <=? String.length s)%nat.

(** The white space of the regular expression class [\s], on UTF-8
    bytes: [white_space s] is the rest of [s] after one such character. *)
Definition white_space (s : string) : option string :=
  match s with
  | String c t =>
      let n := nat_of_ascii c in
      if ((9 <=? n) && (n <=? 13) || (n =? 32))%nat then Some t
      else
        match t with
        | String c1 t1 =>
            let n1 := nat_of_ascii c1 in
            if ((n =? 194) && (n1 =? 160))%nat then Some t1
            else
              match t1 with
              | String c2 t2 =>
                  let n2 := nat_of_ascii c2 in
                  if ((n =? 225) && (n1 =? 154) && (n2 =? 128)
                      || (n =? 226) && (n1 =? 128)
                         && ((128 <=? n2) && (n2 <=? 138)
                             || (n2 =? 168) || (n2 =? 169) || (n2 =? 175))
                      || (n =? 226) && (n1 =? 129) && (n2 =? 159)
                      || (n =? 227) && (n1 =? 128) && (n2 =? 128)
                      || (n =? 239) && (n1 =? 187) && (n2 =? 191))%nat
                  then Some t2
                  else None
              | EmptyString => None
              end
        | EmptyString => None
        end
  | EmptyString => None
  end.

(** [ltrim]: drop white space while the string starts with some.  The
    fuel is the length, which every step shortens. *)
Fixpoint ltrim_fuel (fuel : nat) (s : string) : string :=
  match fuel with
  | O => s
  | S fuel' =>
      match white_space s with
      | Some t => ltrim_fuel fuel' t
      | None => s
      end
  end.

Definition ltrim (s : string) : string := ltrim_fuel (String.length s) s.

(** [rtrim]: the part of [s] up to its last character that is not white
    space, that is, [s] without its longest suffix of white space. *)
Fixpoint rtrim (s : string) : string :=
  match s with
  | EmptyString => EmptyString
  | String c t => if ltrim s =? "" then EmptyString else String c (rtrim t)
  end.

(** [trim(str)] with no character class. *)
Definition trim (s : string) : string := rtrim (ltrim s).

End Str.

(** ** express-validator: chains, their items and how a chain runs

    Error entries follow the 7.x layout (type, value, msg, path,
    location).  A chain selects one field of the body, runs its items in
    order on the field's current value, and writes a sanitised value back
    into the body. *)

Module Validator.
Section Chains.
Context {P : Platform}.
Import Js.

Inductive Validation : Type :=
| IsLength (min : nat)
| IsEmail
| IsFloat.

Inductive Sanitization : Type :=
| Trim
| NormalizeEmail.

Inductive ContextItem : Type :=
| StandardValidation (v : Validation) (message : option string)
| StandardSanitization (s : Sanitization).

Record ValidationChain : Type := {
  field : string;
  stack : list ContextItem
}.

Record FieldValidationError : Type := {
  value : Js.value;
  msg : string;
  path : string
}.

(** The builder: [body('f')] and the chain methods the service uses. *)
Definition body (f : string) : ValidationChain :=
  {| field := f; stack := [] |}.

Definition addItem (it : ContextItem) (c : ValidationChain)
  : ValidationChain :=
  {| field := field c; stack := stack c ++ [it] |}.

Definition trim := addItem (StandardSanitization Trim).
Definition normalizeEmail := addItem (StandardSanitization NormalizeEmail).
Definition isLength (min : nat) := addItem (StandardValidation (IsLength min) None).
Definition isEmail := addItem (StandardValidation IsEmail None).
Definition isFloat := addItem (StandardValidation IsFloat None).

(** [withMessage] sets the message of the last validator of the chain,
    also when sanitisers were added after it. *)
Fixpoint message_of_last (m : string) (rev_stack : list ContextItem)
  : list ContextItem :=
  match rev_stack with
  | [] => []
  | StandardValidation v _ :: t => StandardValidation v (Some m) :: t
  | it :: t => it :: message_of_last m t
  end.

Definition withMessage (m : string) (c : ValidationChain) : ValidationChain :=
  {| field := field c; stack := rev (message_of_last m (rev (stack c))) |}.

(** [toString(value)] of the library's utilities (7.x).  [null] and
    [undefined] are the empty string.  An object or an array whose
    [toString] is truthy is rendered by it when it is a function (the
    inherited one, for a parsed value) and by [Object.prototype.toString]
    when it is not (an own property of a parsed object).  An object whose
    own [toString] is falsy goes on to the test [isNaN(value)], whose
    conversion to a number throws.  Everything else goes through
    [String(value)]. *)
Definition toString (v : Js.value) : completion string :=
  match v with
  | None => Normal ""
  | Some JNull => Normal ""
  | Some (JObj props) =>
      match lookup "toString" props with
      | None => Normal "[object Object]"
      | Some own =>
          if truthy own then Normal "[object Object]"
          else Throw not_primitive
      end
  | Some x => String_ x
  end.

(** An array is validated and sanitised element by element. *)
Definition elements (v : Js.value) : list Js.value :=
  match v with
  | Some (JArr l) => map Some l
  | _ => [v]
  end.

Definition validator (k : Validation) (s : string) : bool :=
  match k with
  | IsLength min => Str.isLength min s
  | IsEmail => validator_isEmail s
  | IsFloat => Str.isFloat s
  end.

Definition sanitizer (k : Sanitization) (s : string) : json :=
  match k with
  | Trim => JStr (Str.trim s)
  | NormalizeEmail =>
      match validator_normalizeEmail s with
      | Some e => JStr e
      | None => JBool false
      end
  end.

Notation "x <~ c ;; k" := (bind_completion c (fun x => k))
  (at level 61, c at next level, right associativity).

(** A standard validator on the elements, in order; an element that
    cannot be rendered ends the run with its exception. *)
Fixpoint validate_each (k : Validation) (message : option string)
  (f : string) (values : list Js.value)
  : completion (list FieldValidationError) :=
  match values with
  | [] => Normal []
  | e :: rest =>
      s <~ toString e ;;
      es <~ validate_each k message f rest ;;
      Normal ((if validator k s then []
               else [{| value := e;
                        msg := match message with
                               | Some m => m
                               | None => "Invalid value"
                               end;
                        path := f |}]) ++ es)
  end.

Definition run_validation (k : Validation) (message : option string)
  (f : string) (v : Js.value) : completion (list FieldValidationError) :=
  validate_each k message f (elements v).

Fixpoint sanitize_each (k : Sanitization) (values : list json)
  : completion (list json) :=
  match values with
  | [] => Normal []
  | e :: rest =>
      s <~ toString (Some e) ;;
      t <~ sanitize_each k rest ;;
      Normal (sanitizer k s :: t)
  end.

Definition run_sanitization (k : Sanitization) (v : Js.value)
  : completion json :=
  match v with
  | Some (JArr l) => t <~ sanitize_each k l ;; Normal (JArr t)
  | _ => s <~ toString v ;; Normal (sanitizer k s)
  end.

(** The items of one chain, in order, on the instance value [v].  The
    request body is an object the sanitisers write into: it is threaded
    through, and an exception leaves it as the items before had it. *)
Fixpoint run_stack (f : string) (items : list ContextItem)
  (b : json) (v : Js.value)
  : json * completion (list FieldValidationError) :=
  match items with
  | [] => (b, Normal [])
  | StandardValidation k m :: rest =>
      match run_validation k m f v with
      | Throw message => (b, Throw message)
      | Normal es =>
          let (b', r) := run_stack f rest b v in
          (b', es' <~ r ;; Normal (es ++ es'))
      end
  | StandardSanitization k :: rest =>
      match run_sanitization k v with
      | Throw message => (b, Throw message)
      | Normal v' => run_stack f rest (set (toPath f) v' b) (Some v')
      end
  end.

Definition run (c : ValidationChain) (b : json)
  : json * completion (list FieldValidationError) :=
  run_stack (field c) (stack c) b (get (toPath (field c)) (Some b)).

(** One entry of [errors.array()]. *)
Definition error_json (e : FieldValidationError) : json :=
  obj [("type", Some (JStr "field"));
       ("value", value e);
       ("msg", Some (JStr (msg e)));
       ("path", Some (JStr (path e)));
       ("location", Some (JStr "body"))].

End Chains.
End Validator.

(** ** The storage engine: the [users] table and the five statements

    The table is the one the service creates on start-up.  A column
    declared TEXT NOT NULL holds a text and a column declared REAL NOT NULL
    holds a double, or a text the engine could not read as a number; the
    two timestamps are the text of CURRENT_TIMESTAMP.  Rows are kept in
    scan order.  [fault] is the message of a failure of the engine itself
    (an I/O error, a locked file) when the statement meets one. *)

Module Sqlite.
Section Engine.
Context {P : Platform}.
Import Js.

Inductive sqlval : Type :=
| SNull
| SInteger (z : Z)
| SReal (x : number)
| SText (s : string).

(** How the driver binds a JavaScript value to a [?]: an [undefined] is
    left unbound, which the engine reads as NULL; every other object, an
    array included, is bound as the text [[object Object]]. *)
Definition bind (v : Js.value) : sqlval :=
  match v with
  | None => SNull
  | Some JNull => SNull
  | Some (JBool b) => SInteger (if b then 1 else 0)%Z
  | Some (JNum n) =>
      match int_of_number n with
      | Some z => SInteger z
      | None => SReal n
      end
  | Some (JStr s) => SText s
  | Some (JArr _) => SText "[object Object]"
  | Some (JObj _) => SText "[object Object]"
  end.

Inductive real_cell : Type :=
| CReal (x : number)
| CText (s : string).

Record Row : Type := {
  id : Z;
  name : string;
  email : string;
  phone : string;
  company : string;
  address_street : string;
  address_city : string;
  address_zip : string;
  geo_lat : real_cell;
  geo_lng : real_cell;
  created_at : string;
  updated_at : string
}.

Record Db : Type := {
  users : list Row;
  (** the largest rowid AUTOINCREMENT has handed out *)
  sqlite_sequence : Z
}.

Definition empty : Db := {| users := []; sqlite_sequence := 0 |}.

(** What the callback of [db.run] sees in [this]. *)
Record RunResult : Type := {
  lastID : Z;
  changes : Z
}.

(** The first argument of a callback: [inl] carries [err.message]. *)
Definition outcome (A : Type) : Type := (string + A)%type.

Definition and_then {A B} (o : outcome A) (k : A -> outcome B) : outcome B :=
  match o with
  | inl m => inl m
  | inr a => k a
  end.

Notation "x <- o ;; k" := (and_then o (fun x => k))
  (at level 61, o at next level, right associativity).

Definition decimal (z : Z) : string := NilZero.string_of_int (Z.to_int z).

(** Column affinity; [None] is NULL. *)
Definition text_affinity (v : sqlval) : option string :=
  match v with
  | SNull => None
  | SInteger z => Some (decimal z)
  | SReal x => Some (text_of_real x)
  | SText s => Some s
  end.

Definition real_affinity (v : sqlval) : option real_cell :=
  match v with
  | SNull => None
  | SInteger z => Some (CReal (number_of_Z z))
  | SReal x => Some (CReal x)
  | SText s =>
      match real_of_text s with
      | Some x => Some (CReal x)
      | None => Some (CText s)
      end
  end.

(** The operand of [id = ?] under the INTEGER affinity of the column. *)
Definition rowid_of (v : sqlval) : option Z :=
  match v with
  | SNull => None
  | SInteger z => Some z
  | SReal x => int_of_number x
  | SText s => rowid_of_text s
  end.

Definition has_rowid (v : sqlval) (r : Row) : bool :=
  match rowid_of v with
  | Some z => (id r =? z)%Z
  | None => false
  end.

Definition not_null {A} (column : string) (v : option A) : outcome A :=
  match v with
  | Some a => inr a
  | None =>
      inl ("SQLITE_CONSTRAINT: NOT NULL constraint failed: users." ++ column)%string
  end.

Definition unique_email (e : string) (others : list Row) : outcome unit :=
  if existsb (fun r => email r =? e) others
  then inl "SQLITE_CONSTRAINT: UNIQUE constraint failed: users.email"
  else inr tt.

Definition param (i : nat) (params : list sqlval) : sqlval :=
  nth i params SNull.

Definition arity (n : nat) (params : list sqlval) : outcome unit :=
  if (n <? List.length params)%nat
  then inl "SQLITE_RANGE: column index out of range"
  else inr tt.

Definition max_rowid (rows : list Row) : Z :=
  fold_right (fun r m => Z.max (id r) m) 0%Z rows.

Definition next_rowid (d : Db) : Z :=
  (Z.max (sqlite_sequence d) (max_rowid (users d)) + 1)%Z.

(** The nine assigned columns, after affinity and the NOT NULL checks, in
    the order of the table. *)
Definition assigned (params : list sqlval) (key : Z) (created updated : string)
  : outcome Row :=
  c_name <- not_null "name" (text_affinity (param 0 params)) ;;
  c_email <- not_null "email" (text_affinity (param 1 params)) ;;
  c_phone <- not_null "phone" (text_affinity (param 2 params)) ;;
  c_company <- not_null "company" (text_affinity (param 3 params)) ;;
  c_street <- not_null "address_street" (text_affinity (param 4 params)) ;;
  c_city <- not_null "address_city" (text_affinity (param 5 params)) ;;
  c_zip <- not_null "address_zip" (text_affinity (param 6 params)) ;;
  c_lat <- not_null "geo_lat" (real_affinity (param 7 params)) ;;
  c_lng <- not_null "geo_lng" (real_affinity (param 8 params)) ;;
  inr {| id := key; name := c_name; email := c_email; phone := c_phone;
         company := c_company; address_street := c_street;
         address_city := c_city; address_zip := c_zip;
         geo_lat := c_lat; geo_lng := c_lng;
         created_at := created; updated_at := updated |}.

(** [INSERT INTO users (name, email, phone, company, address_street,
    address_city, address_zip, geo_lat, geo_lng) VALUES (?, ..., ?)] at
    the time [now]. *)
Definition insert_user (fault : option string) (now : string)
  (params : list sqlval) (d : Db) : outcome RunResult * Db :=
  match fault with
  | Some m => (inl m, d)
  | None =>
      let key := next_rowid d in
      match (_ <- arity 9 params ;;
             r <- assigned params key now now ;;
             _ <- unique_email (email r) (users d) ;;
             inr r) with
      | inl m => (inl m, d)
      | inr r =>
          (inr {| lastID := key; changes := 1 |},
           {| users := users d ++ [r]; sqlite_sequence := key |})
      end
  end.

(** [UPDATE users SET name = ?, ..., geo_lng = ?, updated_at =
    CURRENT_TIMESTAMP WHERE id = ?]: the tenth parameter selects the row;
    with no such row nothing is checked and nothing changes. *)
Definition update_user (fault : option string) (now : string)
  (params : list sqlval) (d : Db) : outcome RunResult * Db :=
  match fault with
  | Some m => (inl m, d)
  | None =>
      match arity 10 params with
      | inl m => (inl m, d)
      | inr _ =>
          let key := param 9 params in
          match find (has_rowid key) (users d) with
          | None => (inr {| lastID := 0; changes := 0 |}, d)
          | Some old =>
              match (r <- assigned params (id old) (created_at old) now ;;
                     _ <- unique_email (email r)
                            (filter (fun o => negb (has_rowid key o))
                               (users d)) ;;
                     inr r) with
              | inl m => (inl m, d)
              | inr r =>
                  (inr {| lastID := 0; changes := 1 |},
                   {| users := map (fun o => if has_rowid key o then r else o)
                                 (users d);
                      sqlite_sequence := sqlite_sequence d |})
              end
          end
      end
  end.

(** [DELETE FROM users WHERE id = ?] *)
Definition delete_user (fault : option string) (params : list sqlval) (d : Db)
  : outcome RunResult * Db :=
  match fault with
  | Some m => (inl m, d)
  | None =>
      match arity 1 params with
      | inl m => (inl m, d)
      | inr _ =>
          let key := param 0 params in
          let hit := filter (has_rowid key) (users d) in
          (inr {| lastID := 0; changes := Z.of_nat (List.length hit) |},
           {| users := filter (fun o => negb (has_rowid key o)) (users d);
              sqlite_sequence := sqlite_sequence d |})
      end
  end.

(** The row object of a result set: the select list of both queries, with
    its aliases. *)
Definition cell_json (c : real_cell) : json :=
  match c with
  | CReal x => JNum x
  | CText s => JStr s
  end.

Definition result_row (r : Row) : json :=
  JObj [("id", JNum (number_of_Z (id r)));
        ("name", JStr (name r));
        ("email", JStr (email r));
        ("phone", JStr (phone r));
        ("company", JStr (company r));
        ("address.street", JStr (address_street r));
        ("address.city", JStr (address_city r));
        ("address.zip", JStr (address_zip r));
        ("address.geo.lat", cell_json (geo_lat r));
        ("address.geo.lng", cell_json (geo_lng r));
        ("created_at", JStr (created_at r));
        ("updated_at", JStr (updated_at r))].

(** ORDER BY created_at DESC: the sorter compares the timestamps as
    texts and keeps rows with equal keys in scan order. *)
Fixpoint sorter_insert (r : Row) (sorted : list Row) : list Row :=
  match sorted with
  | [] => [r]
  | h :: t =>
      if String.ltb (created_at r) (created_at h)
      then h :: sorter_insert r t
      else r :: h :: t
  end.

Definition order_by_created_at_desc (rows : list Row) : list Row :=
  fold_right sorter_insert [] rows.

(** [SELECT ... FROM users ORDER BY created_at DESC] *)
Definition select_users (fault : option string) (d : Db)
  : outcome (list json) :=
  match fault with
  | Some m => inl m
  | None => inr (map result_row (order_by_created_at_desc (users d)))
  end.

(** [SELECT ... FROM users WHERE id = ?]; [db.get] hands over the first
    row, or [undefined]. *)
Definition select_user (fault : option string) (params : list sqlval) (d : Db)
  : outcome Js.value :=
  match fault with
  | Some m => inl m
  | None =>
      _ <- arity 1 params ;;
      inr (option_map result_row (find (has_rowid (param 0 params)) (users d)))
  end.

End Engine.
End Sqlite.

(** ** The service: src/server.js *)

Module Server.
Section App.
Context {P : Platform}.
Import Js Validator Sqlite.

(** What one request finds around it: [process.env.NODE_ENV], the
    engine's CURRENT_TIMESTAMP, [new Date().toISOString()], and the
    failure the engine meets while serving it, if any. *)
Record Env : Type := {
  NODE_ENV : option string;
  CURRENT_TIMESTAMP : string;
  toISOString : string;
  fault : option string
}.

(** [res.status(code).json(payload)] *)
Record Response : Type := {
  status : nat;
  json_body : json
}.

(** The parts of [req] the handlers read: [req.params.id], [req.body] and
    the errors the validation chains have recorded so far. *)
Record Req : Type := {
  params_id : string;
  req_body : json;
  contexts : list FieldValidationError
}.

Notation "c |. m" := (m c) (at level 40, left associativity, only parsing).
Notation "x <~ c ;; k" := (bind_completion c (fun x => k))
  (at level 61, c at next level, right associativity).

Definition yes : Js.value := Some (JBool true).
Definition no : Js.value := Some (JBool false).
Definition str (s : string) : Js.value := Some (JStr s).

(** Validation middleware (lines 46-56). *)
Definition validateUser : list ValidationChain :=
  [ body "name" |. trim |. isLength 1 |. withMessage "Name is required";
    body "email" |. isEmail |. normalizeEmail
      |. withMessage "Valid email is required";
    body "phone" |. trim |. isLength 1 |. withMessage "Phone is required";
    body "company" |. trim |. isLength 1 |. withMessage "Company is required";
    body "address.street" |. trim |. isLength 1
      |. withMessage "Street address is required";
    body "address.city" |. trim |. isLength 1 |. withMessage "City is required";
    body "address.zip" |. trim |. isLength 1
      |. withMessage "Zip code is required";
    body "address.geo.lat" |. isFloat |. withMessage "Valid latitude is required";
    body "address.geo.lng" |. isFloat
      |. withMessage "Valid longitude is required" ].

(** A chain used as a middleware: it runs on [req.body], leaves the
    sanitised body in the request and adds its errors to the request; an
    exception of the run is handed to [next]. *)
Definition middleware (c : ValidationChain) (req : Req)
  : Req * completion unit :=
  let (b, r) := run c (req_body req) in
  match r with
  | Normal es =>
      ({| params_id := params_id req;
          req_body := b;
          contexts := contexts req ++ es |}, Normal tt)
  | Throw message =>
      ({| params_id := params_id req;
          req_body := b;
          contexts := contexts req |}, Throw message)
  end.

(** The middlewares of a route, one after the other, up to the first that
    hands an exception to [next]. *)
Fixpoint validate (chains : list ValidationChain) (req : Req)
  : Req * completion unit :=
  match chains with
  | [] => (req, Normal tt)
  | c :: rest =>
      let (req', r) := middleware c req in
      match r with
      | Normal _ => validate rest req'
      | Throw message => (req', Throw message)
      end
  end.

(** Helper function to handle validation errors (lines 59-69); [None] is
    the call of [next()]. *)
Definition handleValidationErrors (req : Req) : option Response :=
  let errors := contexts req in
  match errors with
  | _ :: _ =>
      Some {| status := 400;
              json_body := obj [("success", no);
                                ("message", str "Validation failed");
                                ("errors", Some (JArr (map error_json errors)))] |}
  | [] => None
  end.

(** The mapping both read handlers apply to a row object (lines 96-113
    and 152-169). *)
Definition expand (row : json) : json :=
  obj [("id", property row "id");
       ("name", property row "name");
       ("email", property row "email");
       ("phone", property row "phone");
       ("company", property row "company");
       ("address",
        Some (obj [("street", property row "address.street");
                   ("city", property row "address.city");
                   ("zip", property row "address.zip");
                   ("geo",
                    Some (obj [("lat", property row "address.geo.lat");
                               ("lng", property row "address.geo.lng")]))]));
       ("created_at", property row "created_at");
       ("updated_at", property row "updated_at")].

(** GET /api/users - Get all users (lines 74-120). *)
Definition get_users (env : Env) (d : Db) : Response :=
  match select_users (fault env) d with
  | inl message =>
      {| status := 500;
         json_body := obj [("success", no);
                           ("message", str "Failed to fetch users");
                           ("error", str message)] |}
  | inr rows =>
      let users := map expand rows in
      {| status := 200;
         json_body := obj [("success", yes); ("data", Some (JArr users))] |}
  end.

(** GET /api/users/:id - Get single user (lines 123-176). *)
Definition get_user (env : Env) (req : Req) (d : Db) : Response :=
  let id := params_id req in
  match select_user (fault env) [bind (str id)] d with
  | inl message =>
      {| status := 500;
         json_body := obj [("success", no);
                           ("message", str "Failed to fetch user");
                           ("error", str message)] |}
  | inr None =>
      {| status := 404;
         json_body := obj [("success", no); ("message", str "User not found")] |}
  | inr (Some row) =>
      let user := expand row in
      {| status := 200;
         json_body := obj [("success", yes); ("data", Some user)] |}
  end.

(** The parameter list both write handlers build from [req.body] (lines
    180-190 and 219-231, before the id). *)
Definition flatten (b : json) : completion (list Js.value) :=
  name <~ member (Some b) "name" ;;
  email <~ member (Some b) "email" ;;
  phone <~ member (Some b) "phone" ;;
  company <~ member (Some b) "company" ;;
  address <~ member (Some b) "address" ;;
  street <~ member address "street" ;;
  city <~ member address "city" ;;
  zip <~ member address "zip" ;;
  geo <~ member address "geo" ;;
  lat <~ member geo "lat" ;;
  geo' <~ member address "geo" ;;
  lng <~ member geo' "lng" ;;
  Normal [name; email; phone; company; street; city; zip; lat; lng].

(** POST /api/users - Create new user, after the validation middlewares
    (lines 179-214); [created] is the callback of [db.run]. *)
Definition created (ran : outcome RunResult * Db) : Response * Db :=
  match ran with
  | (inl message, d') =>
      if includes "UNIQUE constraint failed" message then
        ({| status := 400;
            json_body := obj [("success", no);
                              ("message", str "Email already exists")] |},
         d')
      else
        ({| status := 500;
            json_body := obj [("success", no);
                              ("message", str "Failed to create user");
                              ("error", str message)] |},
         d')
  | (inr this, d') =>
      ({| status := 201;
          json_body :=
            obj [("success", yes);
                 ("message", str "User created successfully");
                 ("data",
                  Some (obj [("id",
                              Some (JNum (number_of_Z (lastID this))))]))] |},
       d')
  end.

Definition create_user (env : Env) (req : Req) (d : Db)
  : completion (Response * Db) :=
  params <~ flatten (req_body req) ;;
  Normal (created (insert_user (fault env) (CURRENT_TIMESTAMP env)
                     (map bind params) d)).

(** PUT /api/users/:id - Update user, after the validation middlewares
    (lines 217-261); [updated] is the callback of [db.run]. *)
Definition updated (ran : outcome RunResult * Db) : Response * Db :=
  match ran with
  | (inl message, d') =>
      if includes "UNIQUE constraint failed" message then
        ({| status := 400;
            json_body := obj [("success", no);
                              ("message", str "Email already exists")] |},
         d')
      else
        ({| status := 500;
            json_body := obj [("success", no);
                              ("message", str "Failed to update user");
                              ("error", str message)] |},
         d')
  | (inr this, d') =>
      if (changes this =? 0)%Z then
        ({| status := 404;
            json_body := obj [("success", no);
                              ("message", str "User not found")] |},
         d')
      else
        ({| status := 200;
            json_body := obj [("success", yes);
                              ("message", str "User updated successfully")] |},
         d')
  end.

Definition update_user_handler (env : Env) (req : Req) (d : Db)
  : completion (Response * Db) :=
  let id := params_id req in
  params <~ flatten (req_body req) ;;
  Normal (updated (update_user (fault env) (CURRENT_TIMESTAMP env)
                     (map bind (params ++ [str id])) d)).

(** DELETE /api/users/:id - Delete user (lines 264-290). *)
Definition delete_user_handler (env : Env) (req : Req) (d : Db)
  : Response * Db :=
  let id := params_id req in
  match delete_user (fault env) [bind (str id)] d with
  | (inl message, d') =>
      ({| status := 500;
          json_body := obj [("success", no);
                            ("message", str "Failed to delete user");
                            ("error", str message)] |},
       d')
  | (inr this, d') =>
      if (changes this =? 0)%Z then
        ({| status := 404;
            json_body := obj [("success", no);
                              ("message", str "User not found")] |},
         d')
      else
        ({| status := 200;
            json_body := obj [("success", yes);
                              ("message", str "User deleted successfully")] |},
         d')
  end.

(** Health check endpoint (lines 293-299). *)
Definition health (env : Env) : Response :=
  {| status := 200;
     json_body := obj [("success", yes);
                       ("message", str "Server is running");
                       ("timestamp", str (toISOString env))] |}.

(** Error handling middleware (lines 302-309). *)
Definition error_handler (env : Env) (message : string) : Response :=
  {| status := 500;
     json_body :=
       obj [("success", no);
            ("message", str "Internal server error");
            ("error",
             str (match NODE_ENV env with
                  | Some mode =>
                      if mode =? "development" then message
                      else "Something went wrong"
                  | None => "Something went wrong"
                  end))] |}.

(** 404 handler (lines 312-317). *)
Definition not_found : Response :=
  {| status := 404;
     json_body := obj [("success", no); ("message", str "Route not found")] |}.

(** A thrown exception reaches the error handling middleware; the table
    is as it was: every throw, of a validation chain or of a handler,
    precedes the statement. *)
Definition recover (env : Env) (d : Db) (c : completion (Response * Db))
  : Response * Db :=
  match c with
  | Normal out => out
  | Throw message => (error_handler env message, d)
  end.

Definition incoming (id : string) (b : json) : Req :=
  {| params_id := id; req_body := b; contexts := [] |}.

(** [app.post('/api/users', validateUser, handleValidationErrors, ...)] *)
Definition post_users (env : Env) (b : json) (d : Db) : Response * Db :=
  let (req, r) := validate validateUser (incoming "" b) in
  recover env d
    (_ <~ r ;;
     match handleValidationErrors req with
     | Some res => Normal (res, d)
     | None => create_user env req d
     end).

(** [app.put('/api/users/:id', validateUser, handleValidationErrors, ...)] *)
Definition put_user (env : Env) (id : string) (b : json) (d : Db)
  : Response * Db :=
  let (req, r) := validate validateUser (incoming id b) in
  recover env d
    (_ <~ r ;;
     match handleValidationErrors req with
     | Some res => Normal (res, d)
     | None => update_user_handler env req d
     end).

(** The request as the router sees it: the method, the segments of the
    path, and what [express.json()] made of the payload (an absent
    payload is the empty object).  HEAD and OPTIONS requests are answered
    before any handler and are not requests of this type. *)
Inductive Method : Type := GET | POST | PUT | DELETE | PATCH.

Inductive Payload : Type :=
| Parsed (b : json)
| Malformed (message : string).

Record Request : Type := {
  method : Method;
  url : list string;
  payload : Payload
}.

Inductive Route : Type :=
| Users
| User (id : string)
| Health
| Unmatched.

(** Express matches the fixed segments of a path without regard to case. *)
Definition lower (c : ascii) : ascii :=
  let n := nat_of_ascii c in
  if ((65 <=? n) && (n <=? 90))%nat then ascii_of_nat (n + 32) else c.

Fixpoint lowercase (s : string) : string :=
  match s with
  | EmptyString => EmptyString
  | String c t => String (lower c) (lowercase t)
  end.

Definition segment (s pattern : string) : bool := lowercase s =? pattern.

Definition route (segments : list string) : Route :=
  match segments with
  | [a; u] =>
      if segment a "api" && segment u "users" then Users
      else if segment a "api" && segment u "health" then Health
      else Unmatched
  | [a; u; id] =>
      if segment a "api" && segment u "users" then User id else Unmatched
  | _ => Unmatched
  end.

Definition app (env : Env) (r : Request) (d : Db) : Response * Db :=
  match payload r with
  | Malformed message => (error_handler env message, d)
  | Parsed b =>
      match method r, route (url r) with
      | GET, Users => (get_users env d, d)
      | GET, User id => (get_user env (incoming id b) d, d)
      | POST, Users => post_users env b d
      | PUT, User id => put_user env id b d
      | DELETE, User id => delete_user_handler env (incoming id b) d
      | GET, Health => (health env, d)
      | _, _ => (not_found, d)
      end
  end.

End App.
End Server.

(** ** A small runtime to run the service on

    Numbers are kept as their decimal rendering and addresses are
    lower-cased; enough to evaluate the handlers on concrete requests. *)

Module Sample.

Definition integer_of_text (s : string) : option Z :=
  match (match s with
         | String c t => if Ascii.eqb c "-"%char then t else s
         | EmptyString => s
         end) with
  | EmptyString => None
  | String c t =>
      if Str.is_digit c && (Str.skip_digits t =? "")
      then option_map Z.of_int (NilZero.int_of_string s)
      else None
  end.

#[export] Instance runtime : Platform := {|
  number := string;
  number_of_Z := Sqlite.decimal;
  int_of_number := integer_of_text;
  String_of_number := fun n => n;
  validator_isEmail := fun s => Js.includes "@" s && negb (Js.includes " " s);
  validator_normalizeEmail := fun s => Some (Server.lowercase s);
  real_of_text := fun s => if Str.isFloat s then Some s else None;
  text_of_real := fun n => n;
  rowid_of_text := integer_of_text
|}.

Import Js Sqlite Server.

(** A production server whose engine works, at a given second. *)
Definition at_second (now : string) : Env :=
  {| NODE_ENV := Some "production";
     CURRENT_TIMESTAMP := now;
     toISOString := "2024-05-01T10:00:00.000Z";
     fault := None |}.

Definition noon : Env := at_second "2024-05-01 12:00:00".

(** The same server while the engine cannot read its file. *)
Definition failing : Env :=
  {| NODE_ENV := Some "production";
     CURRENT_TIMESTAMP := "2024-05-01 12:00:00";
     toISOString := "2024-05-01T12:00:00.000Z";
     fault := Some "SQLITE_IOERR: disk I/O error" |}.

Definition person (who mail : string) (more : list (string * json)) : json :=
  JObj ([("name", JStr who);
         ("email", JStr mail);
         ("phone", JStr "555-0100");
         ("company", JStr "Acme");
         ("address",
          JObj [("street", JStr "1 Main St");
                ("city", JStr "Springfield");
                ("zip", JStr "12345");
                ("geo", JObj [("lat", JStr "12.5"); ("lng", JNum "-3.25")])])]
        ++ more).

Definition ann : json := person "Ann" "ann@example.org" [].
Definition bob : json := person "Bob" "bob@example.org" [].
Definition cat : json := person "Cat" "cat@example.org" [].

(** The table after Ann was created at noon. *)
Definition ann_row : Row :=
  {| id := 1; name := "Ann"; email := "ann@example.org";
     phone := "555-0100"; company := "Acme";
     address_street := "1 Main St"; address_city := "Springfield";
     address_zip := "12345";
     geo_lat := CReal "12.5"; geo_lng := CReal "-3.25";
     created_at := "2024-05-01 12:00:00";
     updated_at := "2024-05-01 12:00:00" |}.

Definition with_ann : Db := {| users := [ann_row]; sqlite_sequence := 1 |}.

(** Three creates within one second, and the names a listing shows. *)
Definition after_ann : Db := snd (post_users noon ann Sqlite.empty).
Definition after_bob : Db := snd (post_users noon bob after_ann).
Definition after_cat : Db := snd (post_users noon cat after_bob).

Definition names_listed (res : Response) : list Js.value :=
  match get ["data"] (Some (json_body res)) with
  | Some (JArr us) => map (fun u => get ["name"] (Some u)) us
  | _ => []
  end.

End Sample.

(** ** Further data for the small runtime *)

Module Sample2.
Import Js Sqlite Server Sample.

Definition bob_row : Row :=
  {| id := 2; name := "Bob"; email := "bob@example.org";
     phone := "555-0100"; company := "Acme";
     address_street := "1 Main St"; address_city := "Springfield";
     address_zip := "12345";
     geo_lat := CReal "12.5"; geo_lng := CReal "-3.25";
     created_at := "2024-05-01 12:00:01";
     updated_at := "2024-05-01 12:00:01" |}.

(** The table with Ann and Bob. *)
Definition with_ann_bob : Db :=
  {| users := [ann_row; bob_row]; sqlite_sequence := 2 |}.

(** Dan sends his coordinates as numbers. *)
Definition dan : json :=
  JObj [("name", JStr "Dan");
        ("email", JStr "dan@example.org");
        ("phone", JStr "555-0101");
        ("company", JStr "Acme");
        ("address",
         JObj [("street", JStr "2 Main St");
               ("city", JStr "Springfield");
               ("zip", JStr "12345");
               ("geo", JObj [("lat", JNum "12.5"); ("lng", JNum "-3.25")])])].

(** Eve sends her name with blanks around it and her address in capitals. *)
Definition eve : json := person "  Eve " "EVE@example.org" [].

(** A body under one of whose fields something else was sent. *)
Definition with_field (f : string) (v : json) (b : json) : json :=
  set (toPath f) v b.

(** Ann with a latitude that is an array inside an array. *)
Definition nested_lat : json :=
  with_field "address.geo.lat" (JArr [JArr [JNum "1"; JNum "2"]]) ann.

(** A body without a name whose phone is an object that carries a
    [toString] of its own, [null]. *)
Definition odd : json := JObj [("phone", JObj [("toString", JNull)])].

Definition delete_ann : Env * Request :=
  (noon, {| method := DELETE; url := ["api"; "users"; "1"];
            payload := Parsed (JObj []) |}).

End Sample2.

(** * Notions the properties are stated with *)

Section Notions.
Context {P : Platform}.
Import Js Validator Sqlite Server.

(** Two paths diverge when they differ at a step both of them take. *)
Fixpoint diverge (p q : list string) : bool :=
  match p, q with
  | k :: p', k' :: q' => if k =? k' then diverge p' q' else true
  | _, _ => false
  end.

Definition is_object (v : json) : bool :=
  match v with
  | JObj _ => true
  | _ => false
  end.

(** The nine fields of a user payload, as the chains name them. *)
Definition field_names : list string :=
  ["name"; "email"; "phone"; "company"; "address.street"; "address.city";
   "address.zip"; "address.geo.lat"; "address.geo.lng"].

Definition field_value (f : string) (b : json) : Js.value :=
  get (toPath f) (Some b).

(** What the nine validation middlewares leave in the request: the
    failures they recorded, or the exception one of them met, and the body
    as they wrote it. *)
Definition failures (b : json) : completion (list FieldValidationError) :=
  let (req, r) := validate validateUser (incoming "" b) in
  bind_completion r (fun _ => Normal (contexts req)).

Definition sanitized (b : json) : json :=
  req_body (fst (validate validateUser (incoming "" b))).

(** A value every element of which the library renders as a string, and a
    body whose nine fields are such values. *)
Definition rendered (v : Js.value) : bool :=
  match toString v with
  | Normal _ => true
  | Throw _ => false
  end.

Definition renders (v : Js.value) : bool := forallb rendered (elements v).

Definition printable (b : json) : bool :=
  forallb (fun f => renders (field_value f b)) field_names.

(** The string a rendered value is read as.  A value that is not rendered
    has none; [text] is read under [renders] only. *)
Definition text (v : Js.value) : string :=
  match toString v with
  | Normal s => s
  | Throw _ => ""
  end.

(** The work of the chains on a printable body, field by field. *)
Definition checked (k : Validation) (message : option string) (f : string)
  (v : Js.value) : list FieldValidationError :=
  flat_map
    (fun e =>
       if validator k (text e) then []
       else [{| value := e;
                msg := match message with
                       | Some m => m
                       | None => "Invalid value"
                       end;
                path := f |}])
    (elements v).

Definition clean (k : Sanitization) (v : Js.value) : json :=
  match v with
  | Some (JArr l) => JArr (map (fun e => sanitizer k (text (Some e))) l)
  | _ => sanitizer k (text v)
  end.

Definition cleaned (k : Sanitization) (f : string) (b : json) : json :=
  clean k (field_value f b).

Definition write (f : string) (k : Sanitization) (b : json) : json :=
  set (toPath f) (cleaned k f b) b.

Definition written (b : json) : json :=
  write "address.zip" Trim
    (write "address.city" Trim
       (write "address.street" Trim
          (write "company" Trim
             (write "phone" Trim
                (write "email" NormalizeEmail
                   (write "name" Trim b)))))).

Definition params_of (b : json) : list Js.value :=
  [ Some (cleaned Trim "name" b);
    Some (cleaned NormalizeEmail "email" b);
    Some (cleaned Trim "phone" b);
    Some (cleaned Trim "company" b);
    Some (cleaned Trim "address.street" b);
    Some (cleaned Trim "address.city" b);
    Some (cleaned Trim "address.zip" b);
    field_value "address.geo.lat" b;
    field_value "address.geo.lng" b ].

Definition required (f m : string) (b : json) : list FieldValidationError :=
  checked (IsLength 1) (Some m) f (Some (cleaned Trim f b)).

Definition errors_of (b : json) : list FieldValidationError :=
  required "name" "Name is required" b ++
  checked IsEmail (Some "Valid email is required") "email"
    (field_value "email" b) ++
  required "phone" "Phone is required" b ++
  required "company" "Company is required" b ++
  required "address.street" "Street address is required" b ++
  required "address.city" "City is required" b ++
  required "address.zip" "Zip code is required" b ++
  checked IsFloat (Some "Valid latitude is required") "address.geo.lat"
    (field_value "address.geo.lat" b) ++
  checked IsFloat (Some "Valid longitude is required") "address.geo.lng"
    (field_value "address.geo.lng" b).

(** A body in which every field the statement needs is there. *)
Record present (b : json) : Prop := {
  has_name : exists u, field_value "name" b = Some u;
  has_phone : exists u, field_value "phone" b = Some u;
  has_company : exists u, field_value "company" b = Some u;
  has_street : exists u, field_value "address.street" b = Some u;
  has_city : exists u, field_value "address.city" b = Some u;
  has_zip : exists u, field_value "address.zip" b = Some u;
  has_lat : exists u, field_value "address.geo.lat" b = Some u /\ u <> JNull;
  has_lng : exists u, field_value "address.geo.lng" b = Some u /\ u <> JNull
}.

(** The text the INSERT or UPDATE receives for the email column. *)
Definition email_param (b : json) : option string :=
  text_affinity (bind (field_value "email" (sanitized b))).

(** What the spec lists as failing validation, read element by element as
    the chains do: a missing field is the one element [undefined]. *)
Definition blank (f : string) (b : json) : Prop :=
  exists e s, In e (elements (field_value f b))
              /\ toString e = Normal s /\ Str.trim s = "".

Definition not_email (b : json) : Prop :=
  exists e s, In e (elements (field_value "email" b))
              /\ toString e = Normal s /\ validator_isEmail s = false.

Definition not_float (f : string) (b : json) : Prop :=
  exists e s, In e (elements (field_value f b))
              /\ toString e = Normal s /\ Str.isFloat s = false.

Definition invalid (b : json) : Prop :=
  blank "name" b \/ not_email b \/ blank "phone" b \/ blank "company" b \/
  blank "address.street" b \/ blank "address.city" b \/
  blank "address.zip" b \/
  not_float "address.geo.lat" b \/ not_float "address.geo.lng" b.

(** The responses the properties name. *)
Definition validation_failed (es : list FieldValidationError) : Response :=
  {| status := 400;
     json_body := JObj [("success", JBool false);
                        ("message", JStr "Validation failed");
                        ("errors", JArr (map error_json es))] |}.

Definition conflict : Response :=
  {| status := 400;
     json_body := JObj [("success", JBool false);
                        ("message", JStr "Email already exists")] |}.

Definition user_not_found : Response :=
  {| status := 404;
     json_body := JObj [("success", JBool false);
                        ("message", JStr "User not found")] |}.

Definition created_ok (key : Z) : Response :=
  {| status := 201;
     json_body := JObj [("success", JBool true);
                        ("message", JStr "User created successfully");
                        ("data", JObj [("id", JNum (number_of_Z key))])] |}.

(** The user a read handler answers with, for a stored row. *)
Definition user_json (r : Row) : json :=
  JObj [("id", JNum (number_of_Z (Sqlite.id r)));
        ("name", JStr (name r));
        ("email", JStr (email r));
        ("phone", JStr (phone r));
        ("company", JStr (company r));
        ("address",
         JObj [("street", JStr (address_street r));
               ("city", JStr (address_city r));
               ("zip", JStr (address_zip r));
               ("geo", JObj [("lat", cell_json (geo_lat r));
                             ("lng", cell_json (geo_lng r))])]);
        ("created_at", JStr (created_at r));
        ("updated_at", JStr (updated_at r))].

Definition found (r : Row) : Response :=
  {| status := 200;
     json_body := JObj [("success", JBool true); ("data", user_json r)] |}.

Definition listed (rows : list Row) : Response :=
  {| status := 200;
     json_body := JObj [("success", JBool true);
                        ("data", JArr (map user_json rows))] |}.

Definition storage_failure (what detail : string) : Response :=
  {| status := 500;
     json_body := JObj [("success", JBool false);
                        ("message", JStr what);
                        ("error", JStr detail)] |}.

(** [newer_first r1 r2]: [r1] may stand before [r2] in the listing. *)
Definition newer_first (r1 r2 : Row) : Prop :=
  String.leb (created_at r2) (created_at r1) = true.

(** The envelope of the spec, over a set of allowed fields. *)
Definition envelope_fields : list string :=
  ["success"; "message"; "data"; "errors"].

Definition response_fields : list string :=
  ["success"; "message"; "data"; "errors"; "error"; "timestamp"].

Definition envelope (allowed : list string) (res : Response) : Prop :=
  exists props,
    json_body res = JObj props
    /\ incl (map fst props) allowed
    /\ (exists s, lookup "success" props = Some (JBool s))
    /\ (lookup "success" props = Some (JBool false) ->
        lookup "data" props = None).

(** The same over [response_fields], decided, together with where the two
    further fields may appear; [health] says whether a timestamp may. *)
Definition shaped (health : bool) (res : Response) : bool :=
  match json_body res with
  | JObj props =>
      forallb (fun k => existsb (String.eqb k) response_fields) (map fst props)
      && match lookup "success" props with
         | Some (JBool true) => true
         | Some (JBool false) =>
             match lookup "data" props with
             | None => true
             | Some _ => false
             end
         | _ => false
         end
      && match lookup "error" props with
         | Some _ => (status res =? 500)%nat
         | None => true
         end
      && match lookup "timestamp" props with
         | Some _ => health
         | None => true
         end
  | _ => false
  end.

(** The record mapper at work: Flatten, the INSERT with its parameters
    bound by the driver, the SELECT of the row under its new rowid, and
    Expand.  [None] when one of the steps fails. *)
Definition through_storage (env : Env) (d : Db) (x : json) : option json :=
  match flatten x with
  | Throw _ => None
  | Normal params =>
      match insert_user (fault env) (CURRENT_TIMESTAMP env)
              (map bind params) d with
      | (inl _, _) => None
      | (inr this, d') =>
          match select_user (fault env) [SInteger (lastID this)] d' with
          | inr (Some row) => Some (expand row)
          | _ => None
          end
      end
  end.

Definition round_trips (env : Env) (d : Db) (x : json) : Prop :=
  exists user,
    through_storage env d x = Some user
    /\ forall f, In f field_names -> field_value f user = field_value f x.

(** A payload whose fields are what the engine keeps of them: texts for
    the TEXT columns and, for the REAL columns, numbers the engine stores
    as they are. *)
Definition text_fields : list string :=
  ["name"; "email"; "phone"; "company"; "address.street"; "address.city";
   "address.zip"].

Definition stored_form (x : json) : Prop :=
  (forall f, In f text_fields -> exists s, field_value f x = Some (JStr s))
  /\ (forall f, In f ["address.geo.lat"; "address.geo.lng"] ->
        exists n, field_value f x = Some (JNum n)
                  /\ real_affinity (bind (Some (JNum n))) = Some (CReal n)).

(** The primary key: no rowid occurs twice. *)
Definition rowids_unique (d : Db) : Prop := NoDup (map Sqlite.id (users d)).

End Notions.

(** ** Notions for the further properties *)

Section FurtherNotions.
Context {P : Platform}.
Import Js Validator Sqlite Server.

Definition user_updated : Response :=
  {| status := 200;
     json_body := JObj [("success", JBool true);
                        ("message", JStr "User updated successfully")] |}.

Definition user_deleted : Response :=
  {| status := 200;
     json_body := JObj [("success", JBool true);
                        ("message", JStr "User deleted successfully")] |}.

(** The two further constraints of the table: the UNIQUE email, and the
    AUTOINCREMENT counter standing at or above every rowid in use. *)
Definition emails_unique (d : Db) : Prop := NoDup (map email (users d)).

Definition sequence_bounds (d : Db) : Prop :=
  forall r, In r (users d) -> (Sqlite.id r <= sqlite_sequence d)%Z.

Definition consistent (d : Db) : Prop :=
  rowids_unique d /\ emails_unique d /\ sequence_bounds d.

(** The table after a run of requests, each served in its own
    environment, one after the other. *)
Fixpoint serve (requests : list (Env * Request)) (d : Db) : Db :=
  match requests with
  | [] => d
  | (env, r) :: rest => serve rest (snd (app env r d))
  end.

(** [undefined] or [null]: the values whose properties cannot be read. *)
Definition nullish (v : Js.value) : Prop := v = None \/ v = Some JNull.

(** The message each chain of [validateUser] gives its validator. *)
Definition message_of (f : string) : string :=
  if f =? "name" then "Name is required"
  else if f =? "email" then "Valid email is required"
  else if f =? "phone" then "Phone is required"
  else if f =? "company" then "Company is required"
  else if f =? "address.street" then "Street address is required"
  else if f =? "address.city" then "City is required"
  else if f =? "address.zip" then "Zip code is required"
  else if f =? "address.geo.lat" then "Valid latitude is required"
  else if f =? "address.geo.lng" then "Valid longitude is required"
  else "Invalid value".

(** What makes the chain of a field record a failure. *)
Definition fails (f : string) (b : json) : Prop :=
  if f =? "email" then not_email b
  else if (f =? "address.geo.lat") || (f =? "address.geo.lng")
       then not_float f b
       else blank f b.

(** The failures one chain records. *)
Definition chain_errors (f : string) (b : json) : list FieldValidationError :=
  if f =? "email"
  then checked IsEmail (Some (message_of f)) f (field_value f b)
  else if (f =? "address.geo.lat") || (f =? "address.geo.lng")
       then checked IsFloat (Some (message_of f)) f (field_value f b)
       else required f (message_of f) b.

(** The column of a row that a text field of the payload is stored in. *)
Definition text_column (f : string) (r : Row) : string :=
  if f =? "name" then name r
  else if f =? "email" then email r
  else if f =? "phone" then phone r
  else if f =? "company" then company r
  else if f =? "address.street" then address_street r
  else if f =? "address.city" then address_city r
  else address_zip r.

Definition real_column (f : string) (r : Row) : real_cell :=
  if f =? "address.geo.lat" then geo_lat r else geo_lng r.

(** The six fields whose chain trims. *)
Definition trimmed_fields : list string :=
  ["name"; "phone"; "company"; "address.street"; "address.city";
   "address.zip"].

(** A payload the sanitisers leave as it is and the engine stores as it
    is. *)
Definition canonical (b : json) : Prop :=
  stored_form b
  /\ (forall f s, In f trimmed_fields ->
        field_value f b = Some (JStr s) -> Str.trim s = s)
  /\ (forall s, field_value "email" b = Some (JStr s) ->
        validator_normalizeEmail s = Some s).

(** The table with the row of one rowid replaced, or removed. *)
Definition replace_row (key : Z) (row : Row) (d : Db) : Db :=
  {| users := map (fun o => if (Sqlite.id o =? key)%Z then row else o) (users d);
     sqlite_sequence := sqlite_sequence d |}.

Definition remove_row (key : Z) (d : Db) : Db :=
  {| users := filter (fun o => negb (Sqlite.id o =? key)%Z) (users d);
     sqlite_sequence := sqlite_sequence d |}.

Definition append_row (row : Row) (d : Db) : Db :=
  {| users := users d ++ [row]; sqlite_sequence := Sqlite.id row |}.

(** The rows of a listing, in its order. *)
Definition listing (d : Db) : list Row := order_by_created_at_desc (users d).

(** A chain that only reads: all of its items are validators. *)
Definition validation_only (items : list ContextItem) : bool :=
  forallb (fun it => match it with
                     | StandardValidation _ _ => true
                     | StandardSanitization _ => false
                     end) items.

End FurtherNotions.

(** * Facts about the embedding *)

Section Facts.
Context {P : Platform}.
Import Js Validator Sqlite Server.

Lemma lookup_assign_same k x l : lookup k (assign k x l) = Some x.
Proof.
  induction l as [|[k' v'] t IH]; simpl.
  - now rewrite String.eqb_refl.
  - destruct (k' =? k) eqn:E; simpl.
    + now rewrite String.eqb_refl.
    + now rewrite E.
Qed.

Lemma lookup_assign_other k k' x l :
  (k' =? k) = false -> lookup k' (assign k x l) = lookup k' l.
Proof.
  intros N. induction l as [|[k0 v0] t IH]; simpl.
  - rewrite String.eqb_sym. now rewrite N.
  - destruct (k0 =? k) eqn:E; simpl.
    + apply String.eqb_eq in E. subst k0.
      rewrite String.eqb_sym, N. reflexivity.
    + destruct (k0 =? k'); [reflexivity | exact IH].
Qed.

Lemma get_undefined p : get p None = None.
Proof. destruct p; reflexivity. Qed.

Lemma set_fields_cons k p x l :
  p <> [] ->
  set_fields (k :: p) x l =
  assign k (JObj (set_fields p x
                    match lookup k l with
                    | Some (JObj l') => l'
                    | _ => []
                    end)) l.
Proof. destruct p; [easy | reflexivity]. Qed.

Lemma diverge_nonempty p q : diverge p q = true -> p <> [] /\ q <> [].
Proof. destruct p, q; simpl; try discriminate; split; discriminate. Qed.

(** A write-back at [q] is not seen along a path that diverges from [q]. *)
Lemma get_set_fields_other q :
  forall p x l, diverge p q = true ->
    get p (Some (JObj (set_fields q x l))) = get p (Some (JObj l)).
Proof.
  induction q as [|k q IH]; intros p x l D.
  - destruct p; discriminate.
  - destruct p as [|k' p]; [discriminate|].
    simpl in D.
    destruct (k' =? k) eqn:E.
    + apply String.eqb_eq in E. subst k'.
      destruct (diverge_nonempty _ _ D) as [Np Nq].
      rewrite set_fields_cons by assumption.
      cbn [get]. rewrite lookup_assign_same.
      rewrite IH by assumption.
      destruct p as [|k1 p]; [easy|].
      destruct (lookup k l) as [[| | | | |l']|]; cbn [get lookup];
        now rewrite ?get_undefined.
    + destruct q as [|k2 q].
      * cbn [set_fields get]. now rewrite lookup_assign_other.
      * rewrite set_fields_cons by discriminate.
        cbn [get]. now rewrite lookup_assign_other.
Qed.

Lemma get_set_other p q x b :
  diverge p q = true -> get p (Some (set q x b)) = get p (Some b).
Proof.
  intros D. destruct b; try reflexivity.
  simpl. now apply get_set_fields_other.
Qed.

(** A write-back into an object is read back at the same path. *)
Lemma get_set_fields_same p :
  forall x l, p <> [] -> get p (Some (JObj (set_fields p x l))) = Some x.
Proof.
  induction p as [|k p IH]; intros x l N; [easy|].
  destruct p as [|k2 p].
  - cbn [set_fields get]. now rewrite lookup_assign_same.
  - rewrite set_fields_cons by discriminate.
    cbn [get]. rewrite lookup_assign_same. apply IH. discriminate.
Qed.

Lemma get_set_same p x b :
  p <> [] -> is_object b = true -> get p (Some (set p x b)) = Some x.
Proof.
  intros N O. destruct b; try discriminate. simpl.
  now apply get_set_fields_same.
Qed.

Lemma set_is_object p x b : is_object (set p x b) = is_object b.
Proof. destruct b; reflexivity. Qed.

Lemma get_defined_is_object p b u :
  p <> [] -> get p (Some b) = Some u -> is_object b = true.
Proof. destruct p; [easy|]. destruct b; simpl; easy. Qed.

(** *** What the library renders *)

(** Induction on values, through arrays and objects. *)
Lemma json_induction (Q : json -> Prop) :
  Q JNull -> (forall b, Q (JBool b)) -> (forall n, Q (JNum n)) ->
  (forall s, Q (JStr s)) ->
  (forall l, Forall Q l -> Q (JArr l)) ->
  (forall l, Forall (fun p => Q (snd p)) l -> Q (JObj l)) ->
  forall v, Q v.
Proof.
  intros HN HB HNum HS HA HO.
  fix IH 1. intros [| b | n | s | l | l].
  - exact HN.
  - apply HB.
  - apply HNum.
  - apply HS.
  - apply HA. induction l as [|x t IHl]; constructor; [apply IH | exact IHl].
  - apply HO. induction l as [|[k x] t IHl]; constructor;
      [apply IH | exact IHl].
Qed.

Lemma String_item_throws e m :
  (forall m', String_ e = Throw m' -> m' = not_primitive) ->
  match e with
  | JNull => Normal ""
  | _ => String_ e
  end = Throw m -> m = not_primitive.
Proof. intros H. destruct e; try apply H. discriminate. Qed.

Lemma String_throws v : forall m, String_ v = Throw m -> m = not_primitive.
Proof.
  induction v as [| b | n | s | l IH | l _] using json_induction;
    intros m; try discriminate.
  - now destruct b.
  - cbn [String_]. induction IH as [|e t He _ IHt]; [discriminate|].
    destruct t as [|e' t'].
    + now apply String_item_throws.
    + destruct (match e with JNull => Normal "" | _ => String_ e end)
        as [s|m'] eqn:E.
      * cbn [bind_completion].
        match goal with
        | |- bind_completion ?j _ = _ -> _ => destruct j as [u|m''] eqn:J
        end; cbn [bind_completion]; [discriminate|].
        intros [= <-]. now apply IHt.
      * cbn [bind_completion]. intros [= <-].
        now apply (String_item_throws e).
  - cbn [String_]. destruct (lookup "toString" l); [|discriminate].
    now intros [= <-].
Qed.

Lemma toString_throws v m : toString v = Throw m -> m = not_primitive.
Proof.
  destruct v as [[| b | n | s | l | l]|]; cbn [toString];
    try apply String_throws; try discriminate.
  destruct (lookup "toString" l) as [own|]; [|discriminate].
  destruct (truthy own); [discriminate|]. now intros [= <-].
Qed.

Lemma rendered_text v : rendered v = true -> toString v = Normal (text v).
Proof. unfold rendered, text. now destruct (toString v). Qed.

Lemma not_rendered v : rendered v = false -> toString v = Throw not_primitive.
Proof.
  unfold rendered. destruct (toString v) as [s|m] eqn:E; [discriminate|].
  intros _. now rewrite (toString_throws v m E).
Qed.


Lemma validate_each_rendered k m f vs :
  forallb rendered vs = true ->
  validate_each k m f vs =
  Normal (flat_map
            (fun e =>
               if validator k (text e) then []
               else [{| value := e;
                        msg := match m with
                               | Some m => m
                               | None => "Invalid value"
                               end;
                        path := f |}]) vs).
Proof.
  induction vs as [|e t IH]; cbn [forallb validate_each]; [reflexivity|].
  rewrite andb_true_iff. intros [R Rt].
  rewrite (rendered_text e R), (IH Rt). reflexivity.
Qed.

Lemma validate_each_throws k m f vs :
  forallb rendered vs = false ->
  validate_each k m f vs = Throw not_primitive.
Proof.
  induction vs as [|e t IH]; cbn [forallb validate_each]; [discriminate|].
  destruct (rendered e) eqn:R; cbn [andb]; intros Rt.
  - rewrite (rendered_text e R), (IH Rt). reflexivity.
  - now rewrite (not_rendered e R).
Qed.

Lemma run_validation_renders k m f v :
  renders v = true -> run_validation k m f v = Normal (checked k m f v).
Proof.
  intros R. unfold run_validation.
  now rewrite (validate_each_rendered k m f _ R).
Qed.

Lemma run_validation_throws k m f v :
  renders v = false -> run_validation k m f v = Throw not_primitive.
Proof. intros R. now apply validate_each_throws. Qed.

Lemma sanitize_each_rendered k l :
  forallb rendered (map Some l) = true ->
  sanitize_each k l = Normal (map (fun e => sanitizer k (text (Some e))) l).
Proof.
  induction l as [|e t IH]; cbn [map forallb sanitize_each]; [reflexivity|].
  rewrite andb_true_iff. intros [R Rt].
  rewrite (rendered_text _ R), (IH Rt). reflexivity.
Qed.

Lemma sanitize_each_throws k l :
  forallb rendered (map Some l) = false ->
  sanitize_each k l = Throw not_primitive.
Proof.
  induction l as [|e t IH]; cbn [map forallb sanitize_each]; [discriminate|].
  destruct (rendered (Some e)) eqn:R; cbn [andb]; intros Rt.
  - rewrite (rendered_text _ R), (IH Rt). reflexivity.
  - now rewrite (not_rendered _ R).
Qed.

Lemma run_sanitization_renders k v :
  renders v = true -> run_sanitization k v = Normal (clean k v).
Proof.
  unfold renders, run_sanitization, clean.
  destruct v as [[| b | n | s | l | l]|]; cbn [elements forallb];
    rewrite ?andb_true_r; intros R;
    try (now rewrite (rendered_text _ R)).
  now rewrite (sanitize_each_rendered k l R).
Qed.

Lemma run_sanitization_throws k v :
  renders v = false -> run_sanitization k v = Throw not_primitive.
Proof.
  unfold renders, run_sanitization.
  destruct v as [[| b | n | s | l | l]|]; cbn [elements forallb];
    rewrite ?andb_true_r; intros R;
    try (now rewrite (not_rendered _ R)).
  now rewrite (sanitize_each_throws k l R).
Qed.

(** What a sanitiser returns is rendered. *)
Lemma rendered_sanitizer k s : rendered (Some (sanitizer k s)) = true.
Proof.
  destruct k; cbn [sanitizer]; [reflexivity|].
  now destruct (validator_normalizeEmail s).
Qed.

Lemma renders_clean k v : renders (Some (clean k v)) = true.
Proof.
  assert (One : forall s, renders (Some (sanitizer k s)) = true).
  { intros s. pose proof (rendered_sanitizer k s) as R.
    destruct k; cbn [sanitizer] in *; [now rewrite <- R|].
    destruct (validator_normalizeEmail s); now rewrite <- R. }
  unfold clean. destruct v as [[| b | n | s | l | l]|]; try apply One.
  unfold renders. cbn [elements]. rewrite map_map. apply forallb_forall.
  intros x I. apply in_map_iff in I. destruct I as [e [<- _]].
  apply rendered_sanitizer.
Qed.

(** *** The chains of [validateUser], one by one *)

Lemma run_required f m b :
  run (withMessage m (isLength 1 (trim (body f)))) b =
  if renders (field_value f b)
  then (write f Trim b, Normal (required f m b))
  else (b, Throw not_primitive).
Proof.
  change (run (withMessage m (isLength 1 (trim (body f)))) b)
    with (run_stack f [StandardSanitization Trim;
                       StandardValidation (IsLength 1) (Some m)]
            b (field_value f b)).
  cbn [run_stack]. destruct (renders (field_value f b)) eqn:R.
  - rewrite (run_sanitization_renders _ _ R).
    rewrite (run_validation_renders _ _ _ _ (renders_clean _ _)).
    cbn [bind_completion]. now rewrite app_nil_r.
  - now rewrite (run_sanitization_throws _ _ R).
Qed.

Lemma run_email m b :
  run (withMessage m (normalizeEmail (isEmail (body "email")))) b =
  if renders (field_value "email" b)
  then (write "email" NormalizeEmail b,
        Normal (checked IsEmail (Some m) "email" (field_value "email" b)))
  else (b, Throw not_primitive).
Proof.
  change (run (withMessage m (normalizeEmail (isEmail (body "email")))) b)
    with (run_stack "email" [StandardValidation IsEmail (Some m);
                             StandardSanitization NormalizeEmail]
            b (field_value "email" b)).
  cbn [run_stack]. destruct (renders (field_value "email" b)) eqn:R.
  - rewrite (run_validation_renders _ _ _ _ R).
    rewrite (run_sanitization_renders _ _ R).
    cbn [bind_completion]. now rewrite app_nil_r.
  - now rewrite (run_validation_throws _ _ _ _ R).
Qed.

Lemma run_float f m b :
  run (withMessage m (isFloat (body f))) b =
  if renders (field_value f b)
  then (b, Normal (checked IsFloat (Some m) f (field_value f b)))
  else (b, Throw not_primitive).
Proof.
  change (run (withMessage m (isFloat (body f))) b)
    with (run_stack f [StandardValidation IsFloat (Some m)]
            b (field_value f b)).
  cbn [run_stack]. destruct (renders (field_value f b)) eqn:R.
  - rewrite (run_validation_renders _ _ _ _ R).
    cbn [bind_completion]. now rewrite app_nil_r.
  - now rewrite (run_validation_throws _ _ _ _ R).
Qed.

Lemma field_value_write_other f g k b :
  diverge (toPath f) (toPath g) = true ->
  field_value f (write g k b) = field_value f b.
Proof. intros D. unfold field_value, write. now apply get_set_other. Qed.

Lemma field_value_write_same f k b :
  toPath f <> [] -> is_object b = true ->
  field_value f (write f k b) = Some (cleaned k f b).
Proof. intros N O. unfold field_value, write. now apply get_set_same. Qed.

Lemma write_is_object f k b : is_object (write f k b) = is_object b.
Proof. apply set_is_object. Qed.

Lemma cleaned_write_other f g k k' b :
  diverge (toPath f) (toPath g) = true ->
  cleaned k f (write g k' b) = cleaned k f b.
Proof. intros D. unfold cleaned. now rewrite field_value_write_other. Qed.

Lemma required_write_other f m g k b :
  diverge (toPath f) (toPath g) = true ->
  required f m (write g k b) = required f m b.
Proof. intros D. unfold required. now rewrite cleaned_write_other. Qed.

(** *** The nine middlewares in a row *)

Lemma validate_step c t id b es b' es' :
  run c b = (b', Normal es') ->
  validate (c :: t) {| params_id := id; req_body := b; contexts := es |} =
  validate t {| params_id := id; req_body := b'; contexts := es ++ es' |}.
Proof. intros R. cbn [validate]. unfold middleware. cbn. now rewrite R. Qed.

Lemma validate_stop c t id b es b' m :
  run c b = (b', Throw m) ->
  validate (c :: t) {| params_id := id; req_body := b; contexts := es |} =
  ({| params_id := id; req_body := b'; contexts := es |}, Throw m).
Proof. intros R. cbn [validate]. unfold middleware. cbn. now rewrite R. Qed.

Lemma printable_fields b :
  printable b = true ->
  forall f, In f field_names -> renders (field_value f b) = true.
Proof. unfold printable. now rewrite forallb_forall. Qed.

Ltac chain_runs b Pb :=
  erewrite validate_step
    by (rewrite ?run_required, ?run_email, ?run_float;
        rewrite ?field_value_write_other by reflexivity;
        rewrite (printable_fields b Pb) by (simpl; tauto);
        reflexivity).

Lemma validate_eq id b :
  printable b = true ->
  validate validateUser (incoming id b) =
  ({| params_id := id; req_body := written b; contexts := errors_of b |},
   Normal tt).
Proof.
  intros Pb. unfold validateUser, incoming.
  do 9 chain_runs b Pb.
  cbn [validate].
  rewrite !required_write_other by reflexivity.
  unfold errors_of, written.
  cbn [app]. rewrite <- !app_assoc. reflexivity.
Qed.

Ltac chain_runs_or_stops b f :=
  let R := fresh "R" in
  destruct (renders (field_value f b)) eqn:R;
  [ erewrite validate_step
      by (rewrite ?run_required, ?run_email, ?run_float;
          rewrite ?field_value_write_other by reflexivity;
          rewrite R; reflexivity)
  | erewrite validate_stop
      by (rewrite ?run_required, ?run_email, ?run_float;
          rewrite ?field_value_write_other by reflexivity;
          rewrite R; reflexivity);
    reflexivity ].

Lemma validate_throws id b :
  printable b = false ->
  snd (validate validateUser (incoming id b)) = Throw not_primitive.
Proof.
  intros Pb. unfold validateUser, incoming.
  chain_runs_or_stops b "name".
  chain_runs_or_stops b "email".
  chain_runs_or_stops b "phone".
  chain_runs_or_stops b "company".
  chain_runs_or_stops b "address.street".
  chain_runs_or_stops b "address.city".
  chain_runs_or_stops b "address.zip".
  chain_runs_or_stops b "address.geo.lat".
  chain_runs_or_stops b "address.geo.lng".
  unfold printable, field_names in Pb. cbn [forallb] in Pb.
  rewrite R, R0, R1, R2, R3, R4, R5, R6, R7 in Pb. discriminate.
Qed.

Lemma failures_eq b :
  failures b = if printable b then Normal (errors_of b)
               else Throw not_primitive.
Proof.
  unfold failures. destruct (printable b) eqn:Pb.
  - now rewrite validate_eq.
  - pose proof (validate_throws "" b Pb) as T.
    destruct (validate validateUser (incoming "" b)) as [req r].
    cbn [snd] in T. now rewrite T.
Qed.

(** A body passes validation when the chains complete and record
    nothing. *)
Lemma passes b :
  failures b = Normal [] -> printable b = true /\ errors_of b = [].
Proof.
  rewrite failures_eq. destruct (printable b); [|discriminate].
  now intros [= ->].
Qed.

Lemma sanitized_eq b : printable b = true -> sanitized b = written b.
Proof. intros Pb. unfold sanitized. now rewrite validate_eq. Qed.

Lemma flatten_defined b u :
  get ["address"; "geo"; "lat"] (Some b) = Some u ->
  flatten b =
  Normal (map (fun f => field_value f b)
            ["name"; "email"; "phone"; "company"; "address.street";
             "address.city"; "address.zip"; "address.geo.lat";
             "address.geo.lng"]).
Proof.
  intros G. destruct b as [| | | | |l]; try discriminate.
  cbn [get] in G.
  destruct (lookup "address" l) as [[| | | | |la]|] eqn:A; try discriminate.
  cbn [get] in G.
  destruct (lookup "geo" la) as [[| | | | |lg]|] eqn:Ge; try discriminate.
  unfold flatten, field_value.
  cbn [member bind_completion]. rewrite A. cbn [member bind_completion].
  rewrite Ge. cbn [member bind_completion].
  cbn. rewrite A. cbn. rewrite Ge. reflexivity.
Qed.

Lemma required_defined f m b :
  required f m b = [] -> exists u, field_value f b = Some u.
Proof.
  unfold required, cleaned. destruct (field_value f b) as [u|].
  - eauto.
  - discriminate.
Qed.

Lemma float_defined f m b :
  checked IsFloat m f (field_value f b) = [] ->
  exists u, field_value f b = Some u /\ u <> JNull.
Proof.
  destruct (field_value f b) as [u|]; [|discriminate].
  intros E. exists u. split; [reflexivity|].
  intros ->. discriminate.
Qed.

Lemma valid_present b : errors_of b = [] -> present b.
Proof.
  unfold errors_of. intros E.
  repeat match type of E with
         | _ ++ _ = [] => apply app_eq_nil in E; destruct E as [? E]
         end.
  constructor; eauto using required_defined, float_defined.
Qed.

Lemma present_is_object b : present b -> is_object b = true.
Proof.
  intros [[u N] _ _ _ _ _ _ _].
  eapply get_defined_is_object; [|exact N]. discriminate.
Qed.

Lemma written_fields b :
  is_object b = true ->
  map (fun f => field_value f (written b))
    ["name"; "email"; "phone"; "company"; "address.street";
     "address.city"; "address.zip"; "address.geo.lat"; "address.geo.lng"]
  = params_of b.
Proof.
  intros O. unfold written, params_of. cbn [map].
  repeat (apply f_equal2;
          [ rewrite ?field_value_write_other by reflexivity;
            try (rewrite field_value_write_same;
                 [ rewrite ?cleaned_write_other by reflexivity
                 | discriminate
                 | now rewrite ?write_is_object ]);
            reflexivity
          | ]).
  reflexivity.
Qed.

Lemma flatten_written b :
  errors_of b = [] -> flatten (written b) = Normal (params_of b).
Proof.
  intros E. pose proof (valid_present b E) as Pr.
  pose proof (present_is_object b Pr) as O.
  destruct (has_lat b Pr) as [u [L _]].
  rewrite (flatten_defined (written b) u).
  - now rewrite written_fields.
  - pose proof (written_fields b O) as W. unfold params_of in W.
    cbn [map] in W. injection W as _ _ _ _ _ _ _ W _.
    change (field_value "address.geo.lat" (written b) = Some u).
    now rewrite W.
Qed.

Lemma post_users_eq env b d :
  post_users env b d =
  if printable b
  then match errors_of b with
       | [] => created (insert_user (fault env) (CURRENT_TIMESTAMP env)
                          (map bind (params_of b)) d)
       | es => (validation_failed es, d)
       end
  else (error_handler env not_primitive, d).
Proof.
  unfold post_users. destruct (printable b) eqn:Pb.
  - rewrite validate_eq by assumption. cbn [bind_completion].
    unfold handleValidationErrors. cbn [contexts].
    destruct (errors_of b) as [|e es] eqn:E; [|reflexivity].
    unfold create_user. cbn [req_body].
    rewrite flatten_written by assumption. reflexivity.
  - pose proof (validate_throws "" b Pb) as T.
    destruct (validate validateUser (incoming "" b)) as [req r].
    cbn [snd] in T. now rewrite T.
Qed.

Lemma put_user_eq env id b d :
  put_user env id b d =
  if printable b
  then match errors_of b with
       | [] => updated (update_user (fault env) (CURRENT_TIMESTAMP env)
                          (map bind (params_of b ++ [str id])) d)
       | es => (validation_failed es, d)
       end
  else (error_handler env not_primitive, d).
Proof.
  unfold put_user. destruct (printable b) eqn:Pb.
  - rewrite validate_eq by assumption. cbn [bind_completion].
    unfold handleValidationErrors. cbn [contexts].
    destruct (errors_of b) as [|e es] eqn:E; [|reflexivity].
    unfold update_user_handler. cbn [req_body params_id].
    rewrite flatten_written by assumption. reflexivity.
  - pose proof (validate_throws id b Pb) as T.
    destruct (validate validateUser (incoming id b)) as [req r].
    cbn [snd] in T. now rewrite T.
Qed.

(** The same for a body that passes validation. *)
Lemma post_users_valid env b d :
  failures b = Normal [] ->
  post_users env b d =
  created (insert_user (fault env) (CURRENT_TIMESTAMP env)
             (map bind (params_of b)) d).
Proof.
  intros V. apply passes in V. destruct V as [Pb V].
  now rewrite post_users_eq, Pb, V.
Qed.

Lemma put_user_valid env id b d :
  failures b = Normal [] ->
  put_user env id b d =
  updated (update_user (fault env) (CURRENT_TIMESTAMP env)
             (map bind (params_of b ++ [str id])) d).
Proof.
  intros V. apply passes in V. destruct V as [Pb V].
  now rewrite put_user_eq, Pb, V.
Qed.

Lemma text_param_defined k f b :
  exists s, text_affinity (bind (Some (cleaned k f b))) = Some s.
Proof.
  unfold cleaned, clean.
  assert (S : forall t, exists s,
             text_affinity (bind (Some (sanitizer k t))) = Some s).
  { intros t. destruct k; cbn; [eauto|].
    destruct (validator_normalizeEmail t); cbn; eauto. }
  destruct (field_value f b) as [[| | | | |]|]; cbn [bind text_affinity];
    eauto.
Qed.

Lemma real_param_defined u :
  u <> JNull -> exists c, real_affinity (bind (Some u)) = Some c.
Proof.
  intros N. destruct u as [|[|]|n|s|l|l]; cbn; try easy; eauto.
  - destruct (int_of_number n); cbn; eauto.
  - destruct (real_of_text s); eauto.
  - destruct (real_of_text _); eauto.
  - destruct (real_of_text _); eauto.
Qed.

Lemma assigned_valid b extra key c u :
  errors_of b = [] ->
  exists r, assigned (map bind (params_of b ++ extra)) key c u = inr r
            /\ text_affinity (bind (Some (cleaned NormalizeEmail "email" b)))
               = Some (email r)
            /\ id r = key /\ created_at r = c /\ updated_at r = u.
Proof.
  intros E. pose proof (valid_present b E) as Pr.
  destruct (has_lat b Pr) as [lat [Lat NLat]].
  destruct (has_lng b Pr) as [lng [Lng NLng]].
  destruct (text_param_defined Trim "name" b) as [s1 H1].
  destruct (text_param_defined NormalizeEmail "email" b) as [s2 H2].
  destruct (text_param_defined Trim "phone" b) as [s3 H3].
  destruct (text_param_defined Trim "company" b) as [s4 H4].
  destruct (text_param_defined Trim "address.street" b) as [s5 H5].
  destruct (text_param_defined Trim "address.city" b) as [s6 H6].
  destruct (text_param_defined Trim "address.zip" b) as [s7 H7].
  destruct (real_param_defined lat NLat) as [c8 H8].
  destruct (real_param_defined lng NLng) as [c9 H9].
  unfold assigned, params_of. cbn [map List.app param nth].
  rewrite Lat, Lng, H1, H2, H3, H4, H5, H6, H7, H8, H9.
  cbn [not_null and_then]. eexists. repeat split; reflexivity.
Qed.

Lemma params_arity b extra n :
  (9 + List.length extra <= n)%nat ->
  arity n (map bind (params_of b ++ extra)) = inr tt.
Proof.
  intros L. unfold arity. rewrite length_map, length_app.
  unfold params_of. cbn [List.length].
  destruct (n <? 9 + List.length extra)%nat eqn:E; [|reflexivity].
  apply Nat.ltb_lt in E. lia.
Qed.

Lemma email_param_valid b :
  failures b = Normal [] ->
  email_param b = text_affinity (bind (Some (cleaned NormalizeEmail "email" b))).
Proof.
  intros V. apply passes in V. destruct V as [Pb E].
  unfold email_param. rewrite sanitized_eq by assumption.
  pose proof (written_fields b (present_is_object b (valid_present b E))) as W.
  unfold params_of in W. cbn [map] in W.
  injection W as _ W _ _ _ _ _ _ _. now rewrite W.
Qed.


Lemma has_rowid_text id r :
  has_rowid (SText id) r = true <-> rowid_of_text id = Some (Sqlite.id r).
Proof.
  unfold has_rowid. cbn [rowid_of].
  destruct (rowid_of_text id) as [z|]; [|easy].
  rewrite Z.eqb_eq. split; [now intros -> | congruence].
Qed.

Lemma find_none_rowid id rows :
  (forall r, In r rows -> rowid_of_text id <> Some (Sqlite.id r)) ->
  find (has_rowid (SText id)) rows = None.
Proof.
  intros H. induction rows as [|r t IH]; [reflexivity|].
  cbn [find]. destruct (has_rowid (SText id) r) eqn:E.
  - apply has_rowid_text in E. exfalso. apply (H r); [now left | assumption].
  - apply IH. intros r' I. apply H. now right.
Qed.












Lemma expand_result_row r : expand (result_row r) = user_json r.
Proof. reflexivity. Qed.

Lemma find_unique_rowid id rows r :
  NoDup (map Sqlite.id rows) -> In r rows ->
  rowid_of_text id = Some (Sqlite.id r) ->
  find (has_rowid (SText id)) rows = Some r.
Proof.
  intros N I R. induction rows as [|h t IH]; [easy|].
  cbn [find]. inversion N as [|x xs Nh Nt]; subst.
  destruct I as [->|I].
  - now rewrite (proj2 (has_rowid_text id r) R).
  - destruct (has_rowid (SText id) h) eqn:E.
    + apply has_rowid_text in E. exfalso. apply Nh.
      apply in_map_iff. exists r. split; [congruence | assumption].
    + now apply IH.
Qed.

Lemma filter_all {A} (g : A -> bool) l :
  (forall x, In x l -> g x = true) -> filter g l = l.
Proof.
  induction l as [|a t IH]; intros H; [reflexivity|]. simpl.
  rewrite (H a) by now left. f_equal. apply IH. intros x I. apply H. now right.
Qed.

Lemma filter_none {A} (g : A -> bool) l :
  (forall x, In x l -> g x = false) -> filter g l = [].
Proof.
  induction l as [|a t IH]; intros H; [reflexivity|]. simpl.
  rewrite (H a) by now left. apply IH. intros x I. apply H. now right.
Qed.

Lemma delete_unknown env id b d :
  fault env = None ->
  (forall r, In r (users d) -> rowid_of_text id <> Some (Sqlite.id r)) ->
  delete_user_handler env (incoming id b) d = (user_not_found, d).
Proof.
  intros F N.
  assert (H : forall r, In r (users d) -> has_rowid (SText id) r = false).
  { intros r I. destruct (has_rowid (SText id) r) eqn:E; [|reflexivity].
    apply has_rowid_text in E. now apply N in I. }
  unfold delete_user_handler, delete_user. rewrite F. cbn.
  rewrite (filter_none _ _ H). rewrite filter_all.
  - now destruct d.
  - intros r I. now rewrite (H r I).
Qed.

Lemma ascii_compare_lt_trans a b c :
  Ascii.compare a b = Lt -> Ascii.compare b c = Lt -> Ascii.compare a c = Lt.
Proof.
  unfold Ascii.compare. rewrite !N.compare_lt_iff. apply N.lt_trans.
Qed.

Lemma ascii_compare_refl a : Ascii.compare a a = Eq.
Proof. unfold Ascii.compare. apply N.compare_refl. Qed.

Lemma string_compare_lt_trans s1 : forall s2 s3,
  String.compare s1 s2 = Lt -> String.compare s2 s3 = Lt ->
  String.compare s1 s3 = Lt.
Proof.
  induction s1 as [|a s1 IH]; intros [|b s2] [|c s3]; simpl; try easy.
  destruct (Ascii.compare a b) eqn:AB; try easy;
    destruct (Ascii.compare b c) eqn:BC; try easy; intros H1 H2.
  - apply Ascii.compare_eq_iff in AB, BC. subst.
    rewrite ascii_compare_refl. eauto.
  - apply Ascii.compare_eq_iff in AB. subst. now rewrite BC.
  - apply Ascii.compare_eq_iff in BC. subst. now rewrite AB.
  - now rewrite (ascii_compare_lt_trans a b c).
Qed.

Lemma string_compare_refl s : String.compare s s = Eq.
Proof. induction s; simpl; [reflexivity|]. now rewrite ascii_compare_refl. Qed.

Lemma ltb_trans s1 s2 s3 :
  String.ltb s1 s2 = true -> String.ltb s2 s3 = true -> String.ltb s1 s3 = true.
Proof.
  unfold String.ltb.
  destruct (String.compare s1 s2) eqn:A; try easy.
  destruct (String.compare s2 s3) eqn:B; try easy.
  now rewrite (string_compare_lt_trans s1 s2 s3).
Qed.

Lemma leb_trans s1 s2 s3 :
  String.leb s1 s2 = true -> String.leb s2 s3 = true -> String.leb s1 s3 = true.
Proof.
  unfold String.leb.
  destruct (String.compare s1 s2) eqn:A; try easy;
    destruct (String.compare s2 s3) eqn:B; try easy; intros _ _.
  - apply String.compare_eq_iff in A, B. subst. now rewrite string_compare_refl.
  - apply String.compare_eq_iff in A. subst. now rewrite B.
  - apply String.compare_eq_iff in B. subst. now rewrite A.
  - now rewrite (string_compare_lt_trans s1 s2 s3).
Qed.

Lemma ltb_leb s1 s2 : String.ltb s1 s2 = true -> String.leb s1 s2 = true.
Proof. unfold String.ltb, String.leb. now destruct (String.compare s1 s2). Qed.

Lemma not_ltb_leb s1 s2 : String.ltb s1 s2 = false -> String.leb s2 s1 = true.
Proof.
  unfold String.ltb, String.leb. rewrite (String.compare_antisym s2 s1).
  now destruct (String.compare s1 s2).
Qed.

Lemma sorter_insert_perm r rows : Permutation (sorter_insert r rows) (r :: rows).
Proof.
  induction rows as [|h t IH]; simpl; [reflexivity|].
  destruct (String.ltb (created_at r) (created_at h)); [|reflexivity].
  rewrite IH. apply perm_swap.
Qed.

Lemma order_by_perm rows : Permutation (order_by_created_at_desc rows) rows.
Proof.
  induction rows as [|r t IH]; simpl; [reflexivity|].
  rewrite sorter_insert_perm. now constructor.
Qed.

Lemma sorter_insert_sorted r rows :
  StronglySorted newer_first rows ->
  StronglySorted newer_first (sorter_insert r rows).
Proof.
  induction 1 as [|h t S IH F]; simpl.
  - repeat constructor.
  - destruct (String.ltb (created_at r) (created_at h)) eqn:L.
    + constructor; [assumption|].
      eapply Permutation_Forall.
      * symmetry. apply sorter_insert_perm.
      * constructor; [|assumption]. now apply ltb_leb.
    + apply not_ltb_leb in L. constructor.
      * now constructor.
      * constructor; [assumption|].
        eapply Forall_impl; [|exact F].
        intros x H. unfold newer_first in *. eapply leb_trans; eassumption.
Qed.

Lemma order_by_sorted rows :
  StronglySorted newer_first (order_by_created_at_desc rows).
Proof.
  induction rows as [|r t IH]; simpl; [constructor|].
  now apply sorter_insert_sorted.
Qed.

Lemma get_users_listed env d :
  fault env = None ->
  get_users env d = listed (order_by_created_at_desc (users d)).
Proof.
  intros F. unfold get_users, select_users, listed. rewrite F.
  rewrite map_map. reflexivity.
Qed.

Lemma order_three rA rB rC :
  String.ltb (created_at rA) (created_at rB) = true ->
  String.ltb (created_at rB) (created_at rC) = true ->
  order_by_created_at_desc [rA; rB; rC] = [rC; rB; rA].
Proof.
  intros AB BC. pose proof (ltb_trans _ _ _ AB BC) as AC.
  unfold order_by_created_at_desc. cbn [fold_right sorter_insert].
  rewrite BC. cbn [sorter_insert]. rewrite AC. cbn [sorter_insert].
  now rewrite AB.
Qed.

(** A create that answers 201 appended one row, stamped by the engine. *)
Lemma created_row env b d res d' :
  post_users env b d = (res, d') -> status res = 201 ->
  exists row, users d' = users d ++ [row]
              /\ Sqlite.id row = next_rowid d
              /\ sqlite_sequence d' = next_rowid d
              /\ created_at row = CURRENT_TIMESTAMP env
              /\ res = created_ok (Sqlite.id row).
Proof.
  rewrite post_users_eq.
  destruct (printable b); [|intros [= <- <-]; discriminate].
  destruct (errors_of b); [|intros [= <- <-]; discriminate].
  unfold insert_user. destruct (fault env).
  { cbn [created]. destruct (includes _ _); intros [= <- <-]; discriminate. }
  destruct (arity 9 _) as [m|[]]; cbn [and_then].
  { cbn [created]. destruct (includes _ _); intros [= <- <-]; discriminate. }
  destruct (assigned _ _ _ _) as [m|row] eqn:A; cbn [and_then].
  { cbn [created]. destruct (includes _ _); intros [= <- <-]; discriminate. }
  destruct (unique_email _ _) as [m|[]]; cbn [and_then].
  { cbn [created]. destruct (includes _ _); intros [= <- <-]; discriminate. }
  cbn [created lastID]. intros [= <- <-] _.
  assert (K : Sqlite.id row = next_rowid d /\
              created_at row = CURRENT_TIMESTAMP env).
  { unfold assigned in A.
    repeat match type of A with
           | and_then ?o _ = _ => destruct o; cbn [and_then] in A;
                                  [discriminate|]
           end.
    injection A as <-. split; reflexivity. }
  destruct K as [K1 K2]. exists row. cbn [users sqlite_sequence].
  repeat split; try assumption. now rewrite K1.
Qed.

Lemma shaped_sound h res :
  shaped h res = true ->
  envelope response_fields res
  /\ (get ["error"] (Some (json_body res)) <> None -> status res = 500)
  /\ (get ["timestamp"] (Some (json_body res)) <> None -> h = true).
Proof.
  unfold shaped, envelope. destruct (json_body res) as [| | | | |props];
    try discriminate.
  rewrite !andb_true_iff. intros [[[K S] E] T]. split; [|split].
  - exists props. split; [reflexivity|]. split; [|split].
    + intros k I. rewrite forallb_forall in K. specialize (K k I).
      apply existsb_exists in K. destruct K as [k' [I' Q]].
      apply String.eqb_eq in Q. now subst.
    + destruct (lookup "success" props) as [[|s| | | |]|]; try discriminate.
      eauto.
    + intros Q. rewrite Q in S. now destruct (lookup "data" props).
  - cbn [get]. destruct (lookup "error" props); [|easy].
    intros _. now apply Nat.eqb_eq.
  - cbn [get]. destruct (lookup "timestamp" props); easy.
Qed.

Lemma shaped_get_users env d : shaped false (get_users env d) = true.
Proof. unfold get_users. now destruct (select_users _ _). Qed.

Lemma shaped_get_user env req d : shaped false (get_user env req d) = true.
Proof. unfold get_user. now destruct (select_user _ _ _) as [m|[row|]]. Qed.

Lemma shaped_created ran : shaped false (fst (created ran)) = true.
Proof.
  destruct ran as [[m|this] d']; cbn [created]; [|reflexivity].
  now destruct (includes _ m).
Qed.

Lemma shaped_updated ran : shaped false (fst (updated ran)) = true.
Proof.
  destruct ran as [[m|this] d']; cbn [updated].
  - now destruct (includes _ m).
  - now destruct (changes this =? 0)%Z.
Qed.

Lemma shaped_validation_failed es : shaped false (validation_failed es) = true.
Proof. reflexivity. Qed.

Lemma shaped_error_handler env m : shaped false (error_handler env m) = true.
Proof. reflexivity. Qed.

Lemma shaped_post_users env b d : shaped false (fst (post_users env b d)) = true.
Proof.
  rewrite post_users_eq. destruct (printable b); [|apply shaped_error_handler].
  destruct (errors_of b); [apply shaped_created|].
  apply shaped_validation_failed.
Qed.

Lemma shaped_put_user env id b d :
  shaped false (fst (put_user env id b d)) = true.
Proof.
  rewrite put_user_eq. destruct (printable b); [|apply shaped_error_handler].
  destruct (errors_of b); [apply shaped_updated|].
  apply shaped_validation_failed.
Qed.

Lemma shaped_delete env req d :
  shaped false (fst (delete_user_handler env req d)) = true.
Proof.
  unfold delete_user_handler.
  destruct (delete_user _ _ _) as [[m|this] d']; [reflexivity|].
  now destruct (changes this =? 0)%Z.
Qed.

Lemma shaped_app env req d :
  shaped (match method req, route (url req) with
          | GET, Health => true
          | _, _ => false
          end) (fst (app env req d)) = true.
Proof.
  unfold app. destruct (payload req) as [b|m].
  - destruct (method req), (route (url req)); cbn [fst];
      auto using shaped_get_users, shaped_get_user, shaped_post_users,
        shaped_put_user, shaped_delete.
  - cbn [fst]. now destruct (method req), (route (url req)).
Qed.


Lemma get_user_unknown env id b d :
  fault env = None ->
  (forall r, In r (users d) -> rowid_of_text id <> Some (Sqlite.id r)) ->
  get_user env (incoming id b) d = user_not_found.
Proof.
  intros F N. unfold get_user, select_user. rewrite F. cbn.
  now rewrite (find_none_rowid id (users d) N).
Qed.

Lemma get_user_known env id b d r :
  fault env = None ->
  rowids_unique d -> In r (users d) ->
  rowid_of_text id = Some (Sqlite.id r) ->
  get_user env (incoming id b) d = found r.
Proof.
  intros F N I R. unfold get_user, select_user. rewrite F. cbn.
  now rewrite (find_unique_rowid id (users d) r N I R).
Qed.

(** The error handling middleware shows the detail in development mode
    only. *)
Lemma error_handler_detail env m :
  error_handler env m =
  storage_failure "Internal server error"
    (if match NODE_ENV env with
        | Some mode => mode =? "development"
        | None => false
        end
     then m else "Something went wrong").
Proof.
  unfold error_handler, storage_failure.
  destruct (NODE_ENV env) as [mode|]; [|reflexivity].
  now destruct (mode =? "development").
Qed.

(** A write handler whose statement meets a fault of the engine answers
    500, unless the fault reads like a uniqueness violation. *)
Lemma write_fault_status env id b d m :
  fault env = Some m ->
  failures b = Normal [] ->
  includes "UNIQUE constraint failed" m = false ->
  post_users env b d = (storage_failure "Failed to create user" m, d)
  /\ put_user env id b d = (storage_failure "Failed to update user" m, d).
Proof.
  intros F V U.
  rewrite post_users_valid, put_user_valid by assumption.
  unfold insert_user, update_user. rewrite F. cbn [created updated].
  now rewrite U.
Qed.

(** *** The primary key is kept by every request *)

Lemma max_rowid_bound rows r :
  In r rows -> (Sqlite.id r <= max_rowid rows)%Z.
Proof.
  induction rows as [|h t IH]; [easy|]. cbn [max_rowid fold_right].
  fold (max_rowid t). intros [->|I]; [lia|]. specialize (IH I). lia.
Qed.

Lemma next_rowid_fresh d : ~ In (next_rowid d) (map Sqlite.id (users d)).
Proof.
  intros I. apply in_map_iff in I. destruct I as [r [E I]].
  apply max_rowid_bound in I. unfold next_rowid in E. lia.
Qed.

Lemma assigned_rowid params key c u r :
  assigned params key c u = inr r -> Sqlite.id r = key.
Proof.
  unfold assigned. intros A.
  repeat match type of A with
         | and_then ?o _ = _ => destruct o; cbn [and_then] in A;
                                [discriminate|]
         end.
  now injection A as <-.
Qed.

Lemma insert_keeps_rowids env_fault now params d :
  rowids_unique d -> rowids_unique (snd (insert_user env_fault now params d)).
Proof.
  intros N. unfold insert_user. destruct env_fault; [exact N|].
  destruct (arity 9 params) as [m|[]]; cbn [and_then]; [exact N|].
  destruct (assigned _ _ _ _) as [m|r] eqn:A; cbn [and_then]; [exact N|].
  destruct (unique_email _ _) as [m|[]]; cbn [and_then]; [exact N|].
  unfold rowids_unique. cbn [snd users]. rewrite map_app. cbn [map].
  apply (Permutation_NoDup (l := Sqlite.id r :: map Sqlite.id (users d))).
  - apply Permutation_cons_append.
  - constructor; [|exact N].
    rewrite (assigned_rowid _ _ _ _ _ A). apply next_rowid_fresh.
Qed.

Lemma update_keeps_rowids env_fault now params d :
  rowids_unique d -> rowids_unique (snd (update_user env_fault now params d)).
Proof.
  intros N. unfold update_user. destruct env_fault; [exact N|].
  destruct (arity 10 params) as [m|[]]; [exact N|].
  destruct (find _ _) as [old|] eqn:Fd; [|exact N].
  destruct (assigned _ _ _ _) as [m|r] eqn:A; cbn [and_then]; [exact N|].
  destruct (unique_email _ _) as [m|[]]; cbn [and_then]; [exact N|].
  unfold rowids_unique in *. cbn [snd users]. rewrite map_map.
  erewrite map_ext_in; [exact N|].
  intros o I. cbn beta. destruct (has_rowid _ o) eqn:H; [|reflexivity].
  rewrite (assigned_rowid _ _ _ _ _ A).
  apply find_some in Fd. destruct Fd as [_ Ho].
  unfold has_rowid in H, Ho. destruct (rowid_of _) as [z|]; [|discriminate].
  apply Z.eqb_eq in H, Ho. congruence.
Qed.

Lemma filter_keeps_rowids (g : Row -> bool) rows :
  NoDup (map Sqlite.id rows) -> NoDup (map Sqlite.id (filter g rows)).
Proof.
  induction rows as [|h t IH]; intros N; [constructor|].
  inversion N as [|x xs Nh Nt]; subst. cbn [filter].
  destruct (g h); [|now apply IH]. cbn [map]. constructor; [|now apply IH].
  intros I. apply Nh. apply in_map_iff in I. destruct I as [r [E I]].
  apply filter_In in I. apply in_map_iff. exists r. tauto.
Qed.

Lemma delete_keeps_rowids env_fault params d :
  rowids_unique d -> rowids_unique (snd (delete_user env_fault params d)).
Proof.
  intros N. unfold delete_user. destruct env_fault; [exact N|].
  destruct (arity 1 params) as [m|[]]; [exact N|].
  now apply filter_keeps_rowids.
Qed.

Lemma created_table ran : snd (created ran) = snd ran.
Proof.
  destruct ran as [[m|this] d']; cbn [created]; [|reflexivity].
  now destruct (includes _ m).
Qed.

Lemma updated_table ran : snd (updated ran) = snd ran.
Proof.
  destruct ran as [[m|this] d']; cbn [updated].
  - now destruct (includes _ m).
  - now destruct (changes this =? 0)%Z.
Qed.

Lemma app_keeps_rowids env req d :
  rowids_unique d -> rowids_unique (snd (app env req d)).
Proof.
  intros N. unfold app. destruct (payload req) as [b|m]; [|exact N].
  destruct (method req); destruct (route (url req)) as [|uid| |];
    try exact N.
  - rewrite post_users_eq. destruct (printable b); [|exact N].
    destruct (errors_of b); [|exact N].
    rewrite created_table. now apply insert_keeps_rowids.
  - rewrite put_user_eq. destruct (printable b); [|exact N].
    destruct (errors_of b); [|exact N].
    rewrite updated_table. now apply update_keeps_rowids.
  - unfold delete_user_handler.
    pose proof (delete_keeps_rowids (fault env) [bind (str uid)] d N) as K.
    destruct (delete_user _ _ _) as [[m|this] d']; [exact K|].
    now destruct (changes this =? 0)%Z.
Qed.

(** *** Through the engine *)

(** For a payload in stored form the round trip also holds through the
    INSERT and the query: the row the engine keeps, read back and
    expanded, shows the nine field values of the payload. *)
Lemma stored_form_round_trip x key c u :
  stored_form x ->
  exists params r,
    flatten x = Normal params
    /\ assigned (map bind params) key c u = inr r
    /\ expand (result_row r) = user_json r
    /\ forall f, In f field_names ->
         field_value f (user_json r) = field_value f x.
Proof.
  intros [T R].
  destruct (T "name") as [s1 H1]; [simpl; tauto|].
  destruct (T "email") as [s2 H2]; [simpl; tauto|].
  destruct (T "phone") as [s3 H3]; [simpl; tauto|].
  destruct (T "company") as [s4 H4]; [simpl; tauto|].
  destruct (T "address.street") as [s5 H5]; [simpl; tauto|].
  destruct (T "address.city") as [s6 H6]; [simpl; tauto|].
  destruct (T "address.zip") as [s7 H7]; [simpl; tauto|].
  destruct (R "address.geo.lat") as [n8 [H8 A8]]; [simpl; tauto|].
  destruct (R "address.geo.lng") as [n9 [H9 A9]]; [simpl; tauto|].
  rewrite (flatten_defined x (JNum n8) H8). cbn [map].
  rewrite H1, H2, H3, H4, H5, H6, H7, H8, H9.
  eexists. eexists. split; [reflexivity|]. split.
  - unfold assigned. cbn [map param nth].
    change (bind (Some (JStr ?s))) with (SText s).
    cbn [text_affinity not_null and_then]. rewrite A8, A9.
    cbn [not_null and_then]. reflexivity.
  - split; [reflexivity|].
    intros f I. unfold field_names in I. cbn [In] in I.
    repeat (destruct I as [<-|I]; [now symmetry|]). destruct I.
Qed.

(** A user that was created is found under its id. *)
Lemma create_then_get env env' b b' d res d' :
  fault env' = None ->
  rowids_unique d ->
  post_users env b d = (res, d') -> status res = 201 ->
  exists row,
    res = created_ok (Sqlite.id row)
    /\ In row (users d')
    /\ forall id, rowid_of_text id = Some (Sqlite.id row) ->
         get_user env' (incoming id b') d' = found row.
Proof.
  intros F N Pu S.
  destruct (created_row env b d res d' Pu S) as [row [U [_ [_ [_ R]]]]].
  assert (I : In row (users d')) by (rewrite U; apply in_or_app; right; now left).
  exists row. repeat split; try assumption.
  intros id Rid. apply get_user_known; try assumption.
  pose proof (app_keeps_rowids env
                {| method := POST; url := ["api"; "users"]; payload := Parsed b |}
                d N) as K.
  assert (E : app env
                {| method := POST; url := ["api"; "users"]; payload := Parsed b |}
                d = post_users env b d) by reflexivity.
  rewrite E, Pu in K. exact K.
Qed.

End Facts.

(** ** Facts for the further properties *)

Section FurtherFacts.
Context {P : Platform}.
Import Js Validator Sqlite Server.

Lemma unique_email_free e rows :
  (forall r, In r rows -> email r <> e) -> unique_email e rows = inr tt.
Proof.
  intros H. unfold unique_email.
  destruct (existsb (fun r => email r =? e) rows) eqn:E; [|reflexivity].
  apply existsb_exists in E. destruct E as [r [I Q]].
  apply String.eqb_eq in Q. now apply H in I.
Qed.

Lemma assigned_columns params key c u r :
  assigned params key c u = inr r ->
  text_affinity (param 0 params) = Some (name r)
  /\ text_affinity (param 1 params) = Some (email r)
  /\ text_affinity (param 2 params) = Some (phone r)
  /\ text_affinity (param 3 params) = Some (company r)
  /\ text_affinity (param 4 params) = Some (address_street r)
  /\ text_affinity (param 5 params) = Some (address_city r)
  /\ text_affinity (param 6 params) = Some (address_zip r)
  /\ real_affinity (param 7 params) = Some (geo_lat r)
  /\ real_affinity (param 8 params) = Some (geo_lng r)
  /\ Sqlite.id r = key /\ created_at r = c /\ updated_at r = u.
Proof.
  unfold assigned. intros A.
  repeat match type of A with
         | and_then (not_null _ ?o) _ = _ =>
             destruct o; cbn [not_null and_then] in A; [|discriminate]
         end.
  injection A as <-. cbn. repeat split.
Qed.


Lemma has_rowid_eqb id z o :
  rowid_of_text id = Some z -> has_rowid (SText id) o = (Sqlite.id o =? z)%Z.
Proof. intros R. unfold has_rowid. cbn [rowid_of]. now rewrite R. Qed.

Lemma rowid_injective rows r o :
  NoDup (map Sqlite.id rows) -> In r rows -> In o rows ->
  Sqlite.id o = Sqlite.id r -> o = r.
Proof.
  induction rows as [|h t IH]; [easy|]. intros N Ir Io E.
  inversion N as [|x xs Nh Nt]; subst.
  destruct Ir as [->|Ir], Io as [->|Io]; try reflexivity.
  - exfalso. apply Nh. rewrite <- E. now apply in_map.
  - exfalso. apply Nh. rewrite E. now apply in_map.
  - now apply IH.
Qed.

(** The create handler on a body that passes validation, with a working
    engine. *)
Lemma post_users_run env b d :
  fault env = None -> failures b = Normal [] ->
  exists row,
    assigned (map bind (params_of b)) (next_rowid d)
      (CURRENT_TIMESTAMP env) (CURRENT_TIMESTAMP env) = inr row
    /\ email_param b = Some (email row)
    /\ post_users env b d =
       match unique_email (email row) (users d) with
       | inl _ => (conflict, d)
       | inr _ => (created_ok (Sqlite.id row), append_row row d)
       end.
Proof.
  intros F V. pose proof (proj2 (passes b V)) as E.
  destruct (assigned_valid b [] (next_rowid d) (CURRENT_TIMESTAMP env)
              (CURRENT_TIMESTAMP env) E) as [row [A [Em [Ik _]]]].
  rewrite app_nil_r in A. exists row. split; [exact A|]. split.
  - now rewrite email_param_valid.
  - rewrite post_users_valid, F by assumption. unfold insert_user.
    pose proof (params_arity b [] 9) as Ar. rewrite app_nil_r in Ar.
    rewrite Ar by (simpl; lia). cbn [and_then]. rewrite A. cbn [and_then].
    unfold unique_email.
    destruct (existsb _ _); cbn [and_then created]; [reflexivity|].
    unfold created_ok, append_row. cbn [lastID]. now rewrite Ik.
Qed.


Lemma none_counted {A} (g : A -> bool) l :
  (Z.of_nat (List.length (filter g l)) =? 0)%Z = negb (existsb g l).
Proof.
  induction l as [|h t IH]; [reflexivity|]. cbn [filter existsb].
  destruct (g h); [|exact IH]. cbn [List.length orb negb].
  apply Z.eqb_neq. lia.
Qed.

(** The delete handler with a working engine, for an id the engine reads
    the rowid [z] from. *)
Lemma delete_run env id b d z :
  fault env = None -> rowid_of_text id = Some z ->
  delete_user_handler env (incoming id b) d =
  (if existsb (fun o => (Sqlite.id o =? z)%Z) (users d)
   then user_deleted else user_not_found,
   remove_row z d).
Proof.
  intros F R. unfold delete_user_handler, delete_user. rewrite F.
  cbn [arity List.length Nat.ltb Nat.leb params_id incoming param nth bind str].
  rewrite (filter_ext _ (fun o => (Sqlite.id o =? z)%Z))
    by (intros o; now rewrite (has_rowid_eqb id _ o R)).
  rewrite (filter_ext (fun o => negb (has_rowid (SText id) o))
             (fun o => negb (Sqlite.id o =? z)%Z))
    by (intros o; now rewrite (has_rowid_eqb id _ o R)).
  cbn [changes]. fold (remove_row z d). rewrite none_counted.
  now destruct (existsb _ (users d)).
Qed.


(** *** The constraints of the table *)

Lemma unique_email_passed e rows u :
  unique_email e rows = inr u -> ~ In e (map email rows).
Proof.
  unfold unique_email. destruct (existsb _ rows) eqn:E; [discriminate|].
  intros _ I. apply in_map_iff in I. destruct I as [r [Q I]].
  assert (X : existsb (fun r0 => email r0 =? e) rows = true).
  { apply existsb_exists. exists r. split; [assumption|]. now apply String.eqb_eq. }
  congruence.
Qed.

Lemma NoDup_map_filter {A B} (h : A -> B) (g : A -> bool) l :
  NoDup (map h l) -> NoDup (map h (filter g l)).
Proof.
  induction l as [|a t IH]; intros N; [constructor|].
  inversion N as [|x xs Na Nt]; subst. cbn [filter].
  destruct (g a); [|now apply IH]. cbn [map]. constructor; [|now apply IH].
  intros I. apply Na. apply in_map_iff in I. destruct I as [r [E I]].
  apply filter_In in I. apply in_map_iff. exists r. tauto.
Qed.

Lemma replace_keeps_emails (g : Row -> bool) (r : Row) z rows :
  NoDup (map Sqlite.id rows) -> NoDup (map email rows) ->
  (forall o, g o = true -> Sqlite.id o = z) ->
  ~ In (email r) (map email (filter (fun o => negb (g o)) rows)) ->
  NoDup (map email (map (fun o => if g o then r else o) rows)).
Proof.
  intros Ni Ne G. induction rows as [|h t IH]; intros F; [constructor|].
  inversion Ni as [|x xs Nih Nit]; subst.
  inversion Ne as [|x xs Neh Net]; subst.
  cbn [map filter] in *. destruct (g h) eqn:Gh; cbn [negb map] in *.
  - assert (T : forall o, In o t -> g o = false).
    { intros o I. destruct (g o) eqn:Go; [|reflexivity].
      exfalso. apply Nih. rewrite (G h Gh), <- (G o Go). now apply in_map. }
    rewrite (map_ext_in _ (fun o => o)) by (intros o I; now rewrite (T o I)).
    rewrite map_id. constructor; [|assumption].
    intros I. apply F. apply in_map_iff in I. destruct I as [o [E I]].
    apply in_map_iff. exists o. split; [assumption|].
    apply filter_In. split; [assumption|]. now rewrite (T o I).
  - constructor.
    + intros I. apply in_map_iff in I. destruct I as [x [E I]].
      apply in_map_iff in I. destruct I as [o [<- I]].
      destruct (g o).
      * apply F. left. congruence.
      * apply Neh. rewrite <- E. now apply in_map.
    + apply IH; try assumption. intros I. apply F. now right.
Qed.

Lemma insert_keeps_consistent env_fault now params d :
  consistent d -> consistent (snd (insert_user env_fault now params d)).
Proof.
  intros C. pose proof C as [Ni [Ne Sb]].
  unfold consistent. split; [now apply insert_keeps_rowids|].
  unfold insert_user. destruct env_fault; [tauto|].
  destruct (arity 9 params) as [m|[]]; cbn [and_then]; [tauto|].
  destruct (assigned _ _ _ _) as [m|r] eqn:A; cbn [and_then]; [tauto|].
  destruct (unique_email _ _) as [m|[]] eqn:U; cbn [and_then]; [tauto|].
  cbn [snd]. split.
  - unfold emails_unique. cbn [users]. rewrite map_app. cbn [map].
    apply (Permutation_NoDup (l := email r :: map email (users d))).
    + apply Permutation_cons_append.
    + constructor; [|exact Ne]. eapply unique_email_passed; eassumption.
  - intros o I. cbn [users sqlite_sequence] in *.
    apply in_app_or in I. destruct I as [I|[<-|[]]].
    + apply max_rowid_bound in I. unfold next_rowid. lia.
    + rewrite (assigned_rowid _ _ _ _ _ A). lia.
Qed.

Lemma update_keeps_consistent env_fault now params d :
  consistent d -> consistent (snd (update_user env_fault now params d)).
Proof.
  intros C. pose proof C as [Ni [Ne Sb]].
  unfold consistent. split; [now apply update_keeps_rowids|].
  unfold update_user. destruct env_fault; [tauto|].
  destruct (arity 10 params) as [m|[]]; [tauto|].
  destruct (find _ _) as [old|] eqn:Fd; [|tauto].
  destruct (assigned _ _ _ _) as [m|r] eqn:A; cbn [and_then]; [tauto|].
  destruct (unique_email _ _) as [m|[]] eqn:U; cbn [and_then]; [tauto|].
  cbn [snd]. apply find_some in Fd. destruct Fd as [Io Ho].
  assert (G : forall o, has_rowid (param 9 params) o = true ->
                        Sqlite.id o = Sqlite.id old).
  { intros o H. unfold has_rowid in H, Ho.
    destruct (rowid_of _) as [z|]; [|discriminate].
    apply Z.eqb_eq in H, Ho. congruence. }
  split.
  - unfold emails_unique. cbn [users].
    apply (replace_keeps_emails _ _ (Sqlite.id old)); try assumption.
    eapply unique_email_passed; eassumption.
  - intros o I. cbn [users sqlite_sequence] in *.
    apply in_map_iff in I. destruct I as [x [E I]].
    destruct (has_rowid _ x); [|subst; now apply Sb].
    subst o. rewrite (assigned_rowid _ _ _ _ _ A). now apply Sb.
Qed.

Lemma delete_keeps_consistent env_fault params d :
  consistent d -> consistent (snd (delete_user env_fault params d)).
Proof.
  intros C. pose proof C as [Ni [Ne Sb]].
  unfold delete_user. destruct env_fault; [exact C|].
  destruct (arity 1 params) as [m|[]]; [exact C|].
  cbn [snd]. split; [|split].
  - now apply NoDup_map_filter.
  - now apply NoDup_map_filter.
  - intros o I. cbn [users sqlite_sequence] in *.
    apply filter_In in I. now apply Sb.
Qed.

Lemma app_keeps_consistent env req d :
  consistent d -> consistent (snd (app env req d)).
Proof.
  intros C. unfold app. destruct (payload req) as [b|m]; [|exact C].
  destruct (method req); destruct (route (url req)) as [|uid| |];
    try exact C.
  - rewrite post_users_eq. destruct (printable b); [|exact C].
    destruct (errors_of b); [|exact C].
    rewrite created_table. now apply insert_keeps_consistent.
  - rewrite put_user_eq. destruct (printable b); [|exact C].
    destruct (errors_of b); [|exact C].
    rewrite updated_table. now apply update_keeps_consistent.
  - unfold delete_user_handler.
    pose proof (delete_keeps_consistent (fault env) [bind (str uid)] d C) as K.
    destruct (delete_user _ _ _) as [[m|this] d']; [exact K|].
    now destruct (changes this =? 0)%Z.
Qed.

Lemma serve_keeps_consistent requests : forall d,
  consistent d -> consistent (serve requests d).
Proof.
  induction requests as [|[env r] rest IH]; intros d C; [exact C|].
  cbn [serve]. apply IH. now apply app_keeps_consistent.
Qed.

Lemma empty_consistent : consistent Sqlite.empty.
Proof. repeat split; try constructor. intros r []. Qed.

(** *** The counter of AUTOINCREMENT only grows *)

Lemma app_sequence_grows env req d :
  (sqlite_sequence d <= sqlite_sequence (snd (app env req d)))%Z.
Proof.
  unfold app. destruct (payload req) as [b|m]; [|cbn; lia].
  destruct (method req); destruct (route (url req)) as [|uid| |];
    cbn [snd]; try lia.
  - rewrite post_users_eq. destruct (printable b); [|cbn; lia].
    destruct (errors_of b); [|cbn; lia].
    rewrite created_table. unfold insert_user.
    destruct (fault env); [cbn; lia|].
    destruct (and_then _ _) as [m|r]; cbn [snd sqlite_sequence]; [lia|].
    unfold next_rowid. lia.
  - rewrite put_user_eq. destruct (printable b); [|cbn; lia].
    destruct (errors_of b); [|cbn; lia].
    rewrite updated_table. unfold update_user.
    destruct (fault env); [cbn; lia|].
    destruct (arity 10 _) as [m|[]]; [cbn; lia|].
    destruct (find _ _); [|cbn; lia].
    destruct (and_then _ _); cbn; lia.
  - unfold delete_user_handler, delete_user.
    destruct (fault env); [cbn; lia|]. cbn.
    destruct (_ =? 0)%Z; cbn; lia.
Qed.

Lemma serve_sequence_grows requests : forall d,
  (sqlite_sequence d <= sqlite_sequence (serve requests d))%Z.
Proof.
  induction requests as [|[env r] rest IH]; intros d; cbn [serve]; [lia|].
  pose proof (app_sequence_grows env r d). specialize (IH (snd (app env r d))).
  lia.
Qed.


(** *** Responses that leave the table as it was *)

Lemma created_failure ran :
  (400 <= status (fst (created ran)))%nat ->
  exists m, fst ran = inl m.
Proof.
  destruct ran as [[m|this] d']; cbn [created fst]; [eauto|].
  cbn. lia.
Qed.

Lemma insert_failure env_fault now params d m :
  fst (insert_user env_fault now params d) = inl m ->
  snd (insert_user env_fault now params d) = d.
Proof.
  unfold insert_user. destruct env_fault; [reflexivity|].
  destruct (and_then _ _); [reflexivity | discriminate].
Qed.

Lemma post_users_failure env b d :
  (400 <= status (fst (post_users env b d)))%nat ->
  snd (post_users env b d) = d.
Proof.
  rewrite post_users_eq. destruct (printable b); [|reflexivity].
  destruct (errors_of b); [|reflexivity].
  intros S. apply created_failure in S. destruct S as [m S].
  rewrite created_table. eapply insert_failure. eassumption.
Qed.

Lemma put_user_failure env id b d :
  (400 <= status (fst (put_user env id b d)))%nat ->
  snd (put_user env id b d) = d.
Proof.
  rewrite put_user_eq. destruct (printable b); [|reflexivity].
  destruct (errors_of b); [|reflexivity].
  rewrite updated_table. unfold update_user.
  destruct (fault env); [reflexivity|].
  destruct (arity 10 _) as [m|[]]; [reflexivity|].
  destruct (find _ _); [|reflexivity].
  destruct (and_then _ _); [reflexivity|].
  cbn. lia.
Qed.

Lemma delete_failure env req d :
  (400 <= status (fst (delete_user_handler env req d)))%nat ->
  snd (delete_user_handler env req d) = d.
Proof.
  unfold delete_user_handler, delete_user.
  destruct (fault env); [reflexivity|]. cbn [arity List.length Nat.ltb Nat.leb].
  cbn [changes]. rewrite none_counted.
  destruct (existsb _ (users d)) eqn:E; cbn [negb fst snd status]; [lia|].
  intros _. destruct d as [rows seq]. cbn [users sqlite_sequence] in *.
  f_equal. apply filter_all. intros o I.
  destruct (has_rowid _ o) eqn:H; [|reflexivity].
  assert (X : existsb (has_rowid (param 0 [bind (str (params_id req))])) rows
              = true) by (apply existsb_exists; eauto).
  congruence.
Qed.

(** *** One chain, one message *)





(** *** What the parameter list needs *)




(** *** Payloads the sanitisers leave alone *)

Lemma canonical_params b :
  canonical b ->
  params_of b = map (fun f => field_value f b) field_names.
Proof.
  intros [[T _] [Tr Em]]. unfold params_of, field_names. cbn [map].
  assert (C : forall f, In f trimmed_fields ->
                Some (cleaned Trim f b) = field_value f b).
  { intros f I. assert (It : In f text_fields)
      by (unfold trimmed_fields, text_fields in *; cbn [In] in *; tauto).
    destruct (T f It) as [s H]. unfold cleaned. rewrite H.
    change (clean Trim (Some (JStr s))) with (JStr (Str.trim s)).
    now rewrite (Tr f s I H). }
  rewrite !C by (unfold trimmed_fields; cbn [In]; tauto).
  destruct (T "email") as [s H]; [unfold text_fields; cbn [In]; tauto|].
  unfold cleaned at 1. rewrite H.
  change (clean NormalizeEmail (Some (JStr s)))
    with (match validator_normalizeEmail s with
          | Some e => JStr e
          | None => JBool false
          end).
  now rewrite (Em s H).
Qed.

(** *** Sorting rows whose timestamps are kept *)

Lemma sorter_insert_map_in (g : Row -> Row) r rows :
  created_at (g r) = created_at r ->
  (forall o, In o rows -> created_at (g o) = created_at o) ->
  sorter_insert (g r) (map g rows) = map g (sorter_insert r rows).
Proof.
  intros Kr. induction rows as [|h t IH]; intros K; [reflexivity|].
  cbn [map sorter_insert]. rewrite Kr, (K h) by now left.
  destruct (String.ltb _ _); [|reflexivity].
  cbn [map]. rewrite IH; [reflexivity|]. intros o I. apply K. now right.
Qed.

Lemma order_by_map_in (g : Row -> Row) rows :
  (forall o, In o rows -> created_at (g o) = created_at o) ->
  order_by_created_at_desc (map g rows) = map g (order_by_created_at_desc rows).
Proof.
  induction rows as [|h t IH]; intros K; [reflexivity|].
  cbn [map order_by_created_at_desc fold_right].
  fold (order_by_created_at_desc (map g t)).
  fold (order_by_created_at_desc t).
  rewrite IH by (intros o I; apply K; now right).
  apply sorter_insert_map_in; [apply K; now left|].
  intros o I. apply K. right.
  eapply Permutation_in; [apply order_by_perm | exact I].
Qed.

(** What an UPDATE can do to the table: nothing, or replace the rows of
    one rowid by a row of that rowid and creation time. *)
Lemma update_user_shape env_fault now params d :
  snd (update_user env_fault now params d) = d
  \/ exists old row,
       In old (users d)
       /\ has_rowid (param 9 params) old = true
       /\ Sqlite.id row = Sqlite.id old
       /\ created_at row = created_at old
       /\ snd (update_user env_fault now params d)
          = {| users := map (fun o => if has_rowid (param 9 params) o
                                      then row else o) (users d);
               sqlite_sequence := sqlite_sequence d |}.
Proof.
  unfold update_user. destruct env_fault; [now left|].
  destruct (arity 10 params) as [m|[]]; [now left|].
  destruct (find _ _) as [old|] eqn:Fd; [|now left].
  destruct (assigned _ _ _ _) as [m|row] eqn:A; cbn [and_then]; [now left|].
  destruct (unique_email _ _) as [m|[]]; cbn [and_then]; [now left|].
  right. apply find_some in Fd. destruct Fd as [I H].
  destruct (assigned_columns _ _ _ _ _ A) as (_&_&_&_&_&_&_&_&_&Ki&Kc&_).
  exists old, row. repeat split; assumption.
Qed.



(** *** The sorter on tables that grow and shrink *)

Lemma leb_not_ltb s1 s2 : String.leb s1 s2 = true -> String.ltb s2 s1 = false.
Proof.
  unfold String.ltb, String.leb. rewrite (String.compare_antisym s2 s1).
  now destruct (String.compare s1 s2).
Qed.

Lemma sorter_insert_front r rows :
  (forall o, In o rows -> String.ltb (created_at r) (created_at o) = false) ->
  sorter_insert r rows = r :: rows.
Proof.
  destruct rows as [|h t]; [reflexivity|]. intros K. cbn [sorter_insert].
  now rewrite (K h) by now left.
Qed.


Lemma filter_sorter_insert (g : Row -> bool) r rows :
  StronglySorted newer_first rows ->
  filter g (sorter_insert r rows)
  = if g r then sorter_insert r (filter g rows) else filter g rows.
Proof.
  induction 1 as [|h t S IH F].
  - cbn. now destruct (g r).
  - cbn [sorter_insert].
    destruct (String.ltb (created_at r) (created_at h)) eqn:L.
    + cbn [filter]. rewrite IH.
      destruct (g h), (g r); cbn [sorter_insert]; now rewrite ?L.
    + change (filter g (r :: h :: t))
        with (if g r then r :: filter g (h :: t) else filter g (h :: t)).
      destruct (g r); [|reflexivity].
      rewrite sorter_insert_front; [reflexivity|].
      intros o I. apply filter_In in I. destruct I as [I _].
      apply leb_not_ltb. apply not_ltb_leb in L.
      destruct I as [<-|I]; [assumption|].
      rewrite Forall_forall in F.
      eapply leb_trans; [apply (F o I) | exact L].
Qed.

Lemma order_by_filter (g : Row -> bool) rows :
  order_by_created_at_desc (filter g rows)
  = filter g (order_by_created_at_desc rows).
Proof.
  induction rows as [|h t IH]; [reflexivity|].
  cbn [filter order_by_created_at_desc fold_right].
  fold (order_by_created_at_desc t).
  rewrite filter_sorter_insert by apply order_by_sorted.
  destruct (g h); [|exact IH].
  cbn [order_by_created_at_desc fold_right].
  fold (order_by_created_at_desc (filter g t)). now rewrite IH.
Qed.

(** *** What the sanitisers write *)






(** *** A row found under the rowid it was given *)

Lemma find_appended key rows r :
  (forall o, In o rows -> Sqlite.id o <> key) -> Sqlite.id r = key ->
  find (has_rowid (SInteger key)) (rows ++ [r]) = Some r.
Proof.
  intros N K. induction rows as [|h t IH]; cbn [List.app find].
  - unfold has_rowid. cbn [rowid_of]. now rewrite K, Z.eqb_refl.
  - unfold has_rowid at 1. cbn [rowid_of].
    destruct (Z.eqb_spec (Sqlite.id h) key) as [E|_].
    + exfalso. apply (N h); [now left | exact E].
    + apply IH. intros o I. apply N. now right.
Qed.

End FurtherFacts.

(** * The properties of the spec *)

Section Properties.
Context {P : Platform}.
Import Js Validator Sqlite Server.


(** C2, as the code has it.  Flatten, the INSERT, the SELECT and Expand
    give back the nine field values of a payload whose seven texts are
    strings and whose latitude and longitude are numbers the engine
    stores as they are, when the engine works and no stored user has the
    payload's email.  (A coordinate sent as a numeric string passes
    validation and comes back as a number.)  The timestamps and the id
    are not part of the comparison. *)
Theorem mapper_round_trip env d x :
  fault env = None ->
  stored_form x ->
  (forall r, In r (users d) ->
     text_affinity (bind (field_value "email" x)) <> Some (email r)) ->
  round_trips env d x.
Proof.
  intros F S Fresh.
  destruct (stored_form_round_trip x (next_rowid d) (CURRENT_TIMESTAMP env)
              (CURRENT_TIMESTAMP env) S) as [params [r [Fl [A [_ Fields]]]]].
  destruct (assigned_columns _ _ _ _ _ A) as (_&Em&_&_&_&_&_&_&_&Ki&_&_).
  destruct (proj2 S "address.geo.lat") as [n [L _]]; [cbn [In]; tauto|].
  pose proof Fl as Fl'. rewrite (flatten_defined x (JNum n) L) in Fl'.
  injection Fl' as Ps.
  assert (Ar : arity 9 (map bind params) = inr tt) by (now rewrite <- Ps).
  assert (Pe : param 1 (map bind params) = bind (field_value "email" x))
    by (now rewrite <- Ps).
  exists (user_json r). split; [|exact Fields].
  unfold through_storage. rewrite Fl, F. unfold insert_user.
  rewrite Ar. cbn [and_then]. rewrite A. cbn [and_then].
  rewrite unique_email_free
    by (intros o I E; apply (Fresh o I); now rewrite <- Pe, Em, E).
  cbn [and_then lastID]. unfold select_user.
  cbn [arity List.length Nat.ltb Nat.leb and_then param nth users].
  rewrite (find_appended (next_rowid d) (users d) r); [reflexivity| |exact Ki].
  intros o I E. apply (next_rowid_fresh d). rewrite <- E. now apply in_map.
Qed.

(** C3, as the code has it.  With a working engine the list operation
    answers 200 with all stored users, ordered by [created_at] descending;
    with no users it answers with the empty array.  When A, B and C are
    created in this order on an empty table, each answered 201, at
    strictly increasing values of CURRENT_TIMESTAMP, the list is
    [C, B, A]. *)
Theorem list_newest_first eL d :
  fault eL = None ->
  (exists rows, get_users eL d = listed rows
                /\ Permutation rows (users d)
                /\ StronglySorted newer_first rows)
  /\ (users d = [] -> get_users eL d = listed [])
  /\ (forall eA eB eC a b c rA rB rC dA dB,
        post_users eA a Sqlite.empty = (rA, dA) -> status rA = 201 ->
        post_users eB b dA = (rB, dB) -> status rB = 201 ->
        post_users eC c dB = (rC, d) -> status rC = 201 ->
        String.ltb (CURRENT_TIMESTAMP eA) (CURRENT_TIMESTAMP eB) = true ->
        String.ltb (CURRENT_TIMESTAMP eB) (CURRENT_TIMESTAMP eC) = true ->
        exists rowA rowB rowC,
          get_users eL d = listed [rowC; rowB; rowA]
          /\ rA = created_ok (Sqlite.id rowA)
          /\ rB = created_ok (Sqlite.id rowB)
          /\ rC = created_ok (Sqlite.id rowC)
          /\ (Sqlite.id rowA, Sqlite.id rowB, Sqlite.id rowC) = (1, 2, 3)%Z
          /\ created_at rowA = CURRENT_TIMESTAMP eA
          /\ created_at rowB = CURRENT_TIMESTAMP eB
          /\ created_at rowC = CURRENT_TIMESTAMP eC).
Proof.
  intros F. rewrite get_users_listed by assumption. split; [|split].
  - eexists. split; [reflexivity|]. split.
    + apply order_by_perm.
    + apply order_by_sorted.
  - now intros ->.
  - intros eA eB eC a b c rA rB rC dA dB PA SA PB SB PC SC AB BC.
    destruct (created_row _ _ _ _ _ PA SA) as [rowA [UA [IA [QA [TA RA]]]]].
    destruct (created_row _ _ _ _ _ PB SB) as [rowB [UB [IB [QB [TB RB]]]]].
    destruct (created_row _ _ _ _ _ PC SC) as [rowC [UC [IC [QC [TC RC]]]]].
    exists rowA, rowB, rowC.
    cbn in UA, IA, QA.
    assert (IB' : Sqlite.id rowB = 2%Z).
    { rewrite IB. unfold next_rowid, max_rowid. rewrite QA, UA.
      cbn [fold_right]. now rewrite IA. }
    assert (IC' : Sqlite.id rowC = 3%Z).
    { rewrite IC. unfold next_rowid, max_rowid. rewrite QB, UB, UA.
      cbn [fold_right List.app]. fold (next_rowid dA).
      rewrite <- IB, IB', IA. reflexivity. }
    repeat split; try assumption; try congruence.
    rewrite UC, UB, UA. cbn [List.app].
    rewrite order_three; [reflexivity | now rewrite TA, TB | now rewrite TB, TC].
Qed.

(** C4, where the code departs from it.  When the statement of a read or
    delete handler meets a fault of the engine, the handler answers 500
    and puts the engine's message in [error] whatever the operating mode
    is, production included; only the error handling middleware replaces
    the detail outside development mode. *)
Theorem storage_fault_detail_shown mode now iso m id b d :
  let env := {| NODE_ENV := mode; CURRENT_TIMESTAMP := now;
                toISOString := iso; fault := Some m |} in
  get_users env d = storage_failure "Failed to fetch users" m
  /\ get_user env (incoming id b) d = storage_failure "Failed to fetch user" m
  /\ delete_user_handler env (incoming id b) d
     = (storage_failure "Failed to delete user" m, d)
  /\ error_handler env m
     = storage_failure "Internal server error"
         (if match mode with
             | Some s => s =? "development"
             | None => false
             end
          then m else "Something went wrong").
Proof.
  cbv zeta. repeat split. apply error_handler_detail.
Qed.



(** C7.  A get-by-id request served by a working engine: when the id is
    the rowid of no stored user the answer is 404 "User not found", with
    no data; when it is the rowid of a stored user the answer is 200 with
    that user, its address and geo columns nested as objects. *)
Theorem get_user_by_id env id b d :
  fault env = None ->
  ((forall r, In r (users d) -> rowid_of_text id <> Some (Sqlite.id r)) ->
   get_user env (incoming id b) d = user_not_found
   /\ get ["data"] (Some (json_body (get_user env (incoming id b) d))) = None)
  /\ (forall r, rowids_unique d -> In r (users d) ->
        rowid_of_text id = Some (Sqlite.id r) ->
        get_user env (incoming id b) d = found r
        /\ get ["address"; "geo"; "lat"] (Some (user_json r))
           = Some (cell_json (geo_lat r))
        /\ get ["address"; "street"] (Some (user_json r))
           = Some (JStr (address_street r))).
Proof.
  intros F. split.
  - intros N. rewrite (get_user_unknown env id b d F N). now split.
  - intros r N I R. rewrite (get_user_known env id b d r F N I R).
    repeat split.
Qed.

(** C8, as the code has it.  Every response of the application is a JSON
    object whose fields are among success, message, data, errors, error
    and timestamp, with a boolean [success]; a response with success
    false has no [data]; [error] appears in answers of status 500 only and
    [timestamp] in the health check only; a create or update whose
    validation records failures is answered with them in [errors], and
    one whose validation throws is answered by the error handling
    middleware. *)
Theorem responses_are_envelopes env req d :
  let res := fst (app env req d) in
  envelope response_fields res
  /\ (get ["error"] (Some (json_body res)) <> None -> status res = 500)
  /\ (get ["timestamp"] (Some (json_body res)) <> None ->
      method req = GET /\ route (url req) = Health)
  /\ (forall b, payload req = Parsed b ->
      (method req = POST /\ route (url req) = Users) \/
      (method req = PUT /\ exists id, route (url req) = User id) ->
      (forall es, failures b = Normal es -> es <> [] ->
         res = validation_failed es)
      /\ (forall m, failures b = Throw m -> res = error_handler env m)).
Proof.
  cbv zeta. destruct (shaped_sound _ _ (shaped_app env req d)) as [E [S T]].
  repeat split; try assumption.
  - apply T in H. now destruct (method req), (route (url req)).
  - apply T in H. now destruct (method req), (route (url req)).
  - intros es V Ne. unfold app. rewrite H. rewrite failures_eq in V.
    destruct H0 as [[-> ->]|[-> [id ->]]];
      rewrite ?post_users_eq, ?put_user_eq;
      (destruct (printable b); [|discriminate]);
      injection V as ->; now destruct es.
  - intros m V. unfold app. rewrite H. rewrite failures_eq in V.
    destruct H0 as [[-> ->]|[-> [id ->]]];
      rewrite ?post_users_eq, ?put_user_eq;
      (destruct (printable b); [discriminate|]);
      now injection V as <-.
Qed.



End Properties.

(** * Further properties of the handlers *)

Section Further.
Context {P : Platform}.
Import Js Validator Sqlite Server.

(** X1.  Deleting a stored user, with a working engine, is answered 200
    "User deleted successfully"; the table loses that row and no other,
    the counter of AUTOINCREMENT stays, and from then on the same id is
    not found by get and by delete. *)
Theorem delete_removes_user env id b d r :
  fault env = None ->
  rowids_unique d -> In r (users d) ->
  rowid_of_text id = Some (Sqlite.id r) ->
  let d' := remove_row (Sqlite.id r) d in
  delete_user_handler env (incoming id b) d = (user_deleted, d')
  /\ ~ In r (users d')
  /\ (forall o, In o (users d) -> o <> r -> In o (users d'))
  /\ (forall o, In o (users d') -> In o (users d))
  /\ get_user env (incoming id b) d' = user_not_found
  /\ delete_user_handler env (incoming id b) d' = (user_not_found, d').
Proof.
  intros F N I R d'.
  assert (Gone : forall o, In o (users d') ->
                   rowid_of_text id <> Some (Sqlite.id o)).
  { intros o Io E. apply filter_In in Io. destruct Io as [_ Io].
    rewrite R in E. injection E as E. rewrite <- E, Z.eqb_refl in Io.
    discriminate. }
  repeat split.
  - rewrite (delete_run env id b d _ F R).
    replace (existsb _ (users d)) with true; [reflexivity|].
    symmetry. apply existsb_exists. exists r. split; [assumption|].
    apply Z.eqb_refl.
  - intros Ir. apply filter_In in Ir. rewrite Z.eqb_refl in Ir. now destruct Ir.
  - intros o Io D. apply filter_In. split; [assumption|].
    destruct (Z.eqb_spec (Sqlite.id o) (Sqlite.id r)) as [E|]; [|reflexivity].
    exfalso. apply D. now apply (rowid_injective (users d)).
  - intros o Io. apply filter_In in Io. tauto.
  - now apply get_user_unknown.
  - now apply delete_unknown.
Qed.




(** X5.  An id is never handed out twice: whatever requests are served
    in between, deletes included, a later create that succeeds gets an id
    above that of every user the table ever held. *)
Theorem rowid_never_reused env b d0 r0 requests res d' :
  sequence_bounds d0 -> In r0 (users d0) ->
  post_users env b (serve requests d0) = (res, d') -> status res = 201 ->
  exists row,
    res = created_ok (Sqlite.id row)
    /\ In row (users d')
    /\ (Sqlite.id r0 < Sqlite.id row)%Z.
Proof.
  intros B I0 Po S.
  destruct (created_row env b _ res d' Po S) as [row [U [Ik [_ [_ R]]]]].
  exists row. split; [assumption|]. split.
  - rewrite U. apply in_or_app. right. now left.
  - pose proof (serve_sequence_grows requests d0).
    pose proof (B r0 I0). rewrite Ik. unfold next_rowid. lia.
Qed.

(** X6.  From the empty table on, after any run of requests, the table
    satisfies its declared constraints: no rowid and no email occurs
    twice, and the counter of AUTOINCREMENT is at or above every rowid.
    Every single request keeps them. *)
Theorem table_constraints_kept requests :
  consistent (serve requests Sqlite.empty)
  /\ (forall env r d, consistent d -> consistent (snd (app env r d))).
Proof.
  split.
  - apply serve_keeps_consistent, empty_consistent.
  - intros env r d. apply app_keeps_consistent.
Qed.

(** X7.  A GET request never changes the table, and neither does any
    request that is answered with a status of 400 or above. *)
Theorem failure_leaves_table env req d :
  (method req = GET -> snd (app env req d) = d)
  /\ ((400 <= status (fst (app env req d)))%nat -> snd (app env req d) = d).
Proof.
  unfold app. destruct (payload req) as [b|m]; [|now split].
  split.
  - intros ->. now destruct (route (url req)).
  - destruct (method req); destruct (route (url req)) as [|uid| |];
      cbn [fst snd]; try reflexivity.
    + apply post_users_failure.
    + apply put_user_failure.
    + apply delete_failure.
Qed.




(** X11.  Create, then get: for a payload the sanitisers and the engine
    leave as it is (trimmed texts, a normalised email, numbers the engine
    stores unchanged) and whose email is new, the create is answered 201
    and a get under the new id answers 200 with a user whose nine fields
    are those of the payload. *)
Theorem create_then_get_round_trip env env' id b b' d :
  fault env = None -> fault env' = None ->
  rowids_unique d ->
  failures b = Normal [] -> canonical b ->
  (forall r, In r (users d) -> email_param b <> Some (email r)) ->
  rowid_of_text id = Some (next_rowid d) ->
  exists row,
    post_users env b d = (created_ok (Sqlite.id row), append_row row d)
    /\ get_user env' (incoming id b') (append_row row d) = found row
    /\ forall f, In f field_names ->
         field_value f (user_json row) = field_value f b.
Proof.
  intros F F' N V C Fresh R.
  destruct (post_users_run env b d F V) as [row [A [Em Po]]].
  destruct (assigned_columns _ _ _ _ _ A) as (_&_&_&_&_&_&_&_&_&Ki&_&_).
  exists row. rewrite Po, unique_email_free
    by (intros r Ir E; apply (Fresh r Ir); now rewrite Em, E).
  split; [reflexivity|]. split.
  - apply get_user_known; try assumption.
    + unfold rowids_unique, append_row. cbn [users]. rewrite map_app.
      cbn [map].
      apply (Permutation_NoDup (l := Sqlite.id row :: map Sqlite.id (users d))).
      * apply Permutation_cons_append.
      * constructor; [|exact N]. rewrite Ki. apply next_rowid_fresh.
    + cbn [append_row users]. apply in_or_app. right. now left.
    + now rewrite Ki.
  - destruct (stored_form_round_trip b (next_rowid d) (CURRENT_TIMESTAMP env)
                (CURRENT_TIMESTAMP env) (proj1 C))
      as [params [r [Fl [A' [_ Fields]]]]].
    destruct (proj2 (proj1 C) "address.geo.lat") as [n [L _]];
      [cbn [In]; tauto|].
    rewrite (flatten_defined b (JNum n) L) in Fl. injection Fl as <-.
    pose proof (canonical_params b C) as Cp. unfold field_names in Cp.
    cbn [map] in Cp. rewrite <- Cp in A'.
    assert (r = row) by congruence. now subst r.
Qed.


(** X13.  An update never moves a user in the listing: whatever the
    update request is and however it is answered, the listing afterwards
    shows the same ids in the same order, with the same creation times. *)
Theorem update_keeps_list_order env envL id b d :
  rowids_unique d -> fault envL = None ->
  let d' := snd (put_user env id b d) in
  get_users envL d = listed (listing d)
  /\ get_users envL d' = listed (listing d')
  /\ map Sqlite.id (listing d') = map Sqlite.id (listing d)
  /\ map created_at (listing d') = map created_at (listing d).
Proof.
  intros N FL d'. unfold listing.
  split; [now apply get_users_listed|]. split; [now apply get_users_listed|].
  unfold d'. rewrite put_user_eq.
  destruct (printable b); [|now split].
  destruct (errors_of b); [|now split]. rewrite updated_table.
  destruct (update_user_shape (fault env) (CURRENT_TIMESTAMP env)
              (map bind (params_of b ++ [str id])) d)
    as [->|[old [row [Io [Ho [Ki [Kc ->]]]]]]]; [now split|].
  cbn [users].
  assert (G : forall o, In o (users d) ->
                has_rowid (param 9 (map bind (params_of b ++ [str id]))) o = true ->
                o = old).
  { intros o I H. apply (rowid_injective (users d)); try assumption.
    unfold has_rowid in H, Ho. destruct (rowid_of _) as [z|]; [|discriminate].
    apply Z.eqb_eq in H, Ho. congruence. }
  rewrite order_by_map_in.
  - rewrite !map_map. split; apply map_ext_in; intros o I;
      assert (Iu : In o (users d))
        by (eapply Permutation_in; [apply order_by_perm | exact I]);
      destruct (has_rowid _ o) eqn:H; try reflexivity;
      rewrite (G o Iu H); assumption.
  - intros o I. destruct (has_rowid _ o) eqn:H; [|reflexivity].
    now rewrite (G o I H).
Qed.



(** X15.  Deleting a user leaves the others in the listing in the order
    they had: the listing afterwards is the listing before without the
    rows of that id. *)
Theorem delete_keeps_list_order env envL id b d z :
  fault env = None -> fault envL = None ->
  rowid_of_text id = Some z ->
  get_users envL (snd (delete_user_handler env (incoming id b) d))
  = listed (filter (fun o => negb (Sqlite.id o =? z)%Z) (listing d)).
Proof.
  intros F FL R. rewrite (delete_run env id b d z F R). cbn [snd].
  rewrite get_users_listed by assumption. unfold listing.
  cbn [remove_row users]. now rewrite order_by_filter.
Qed.



End Further.

(** * The properties at work on the small runtime *)

Import Js Validator Sqlite Server Sample Sample2.


(** Dan, whose coordinates are numbers, comes back as he was sent. *)
Lemma mapper_round_trip_witness : round_trips noon with_ann dan.
Proof.
  apply (mapper_round_trip noon with_ann dan).
  - reflexivity.
  - split.
    + intros f I. cbn [text_fields In] in I.
      repeat (destruct I as [<-|I]; [eexists; reflexivity|]). destruct I.
    + intros f I. cbn [In] in I.
      repeat (destruct I as [<-|I]; [eexists; split; reflexivity|]).
      destruct I.
  - intros r [<-|[]]. discriminate.
Defined.

(** Ann, Bob and Cat created one second apart are listed Cat, Bob, Ann. *)
Lemma list_newest_first_witness :
  exists rowA rowB rowC,
    get_users noon
      (snd (post_users (at_second "2024-05-01 12:00:02") cat
         (snd (post_users (at_second "2024-05-01 12:00:01") bob
            (snd (post_users (at_second "2024-05-01 12:00:00") ann
               Sqlite.empty))))))
    = listed [rowC; rowB; rowA]
    /\ (Sqlite.id rowA, Sqlite.id rowB, Sqlite.id rowC) = (1, 2, 3)%Z.
Proof.
  destruct (proj2 (proj2 (list_newest_first noon
              (snd (post_users (at_second "2024-05-01 12:00:02") cat
                 (snd (post_users (at_second "2024-05-01 12:00:01") bob
                    (snd (post_users (at_second "2024-05-01 12:00:00") ann
                       Sqlite.empty))))))
              eq_refl))
            (at_second "2024-05-01 12:00:00")
            (at_second "2024-05-01 12:00:01")
            (at_second "2024-05-01 12:00:02")
            ann bob cat _ _ _ _ _
            (surjective_pairing _) eq_refl
            (surjective_pairing _) eq_refl
            (surjective_pairing _) eq_refl
            eq_refl eq_refl)
    as [rowA [rowB [rowC [L [_ [_ [_ [I _]]]]]]]].
  exists rowA, rowB, rowC. split; assumption.
Defined.



Lemma get_user_by_id_witness :
  get_user noon (incoming "1" (JObj [])) with_ann = found ann_row
  /\ get_user noon (incoming "2" (JObj [])) with_ann = user_not_found.
Proof.
  destruct (get_user_by_id noon "1" (JObj []) with_ann eq_refl) as [_ K].
  destruct (get_user_by_id noon "2" (JObj []) with_ann eq_refl) as [U _].
  split.
  - apply K.
    + repeat constructor. intros [].
    + left. reflexivity.
    + reflexivity.
  - apply U. intros r [<-|[]]. discriminate.
Defined.



(** Three creates within one second are all answered 201, and the list
    shows them oldest first, not [C, B, A]. *)
Lemma same_second_listing :
  status (fst (post_users noon ann Sqlite.empty)) = 201
  /\ status (fst (post_users noon bob after_ann)) = 201
  /\ status (fst (post_users noon cat after_bob)) = 201
  /\ names_listed (get_users noon after_cat)
     = [Some (JStr "Ann"); Some (JStr "Bob"); Some (JStr "Cat")]
  /\ names_listed (get_users noon after_cat)
     <> [Some (JStr "Cat"); Some (JStr "Bob"); Some (JStr "Ann")].
Proof.
  assert (L : names_listed (get_users noon after_cat)
              = [Some (JStr "Ann"); Some (JStr "Bob"); Some (JStr "Cat")])
    by reflexivity.
  repeat (split; [reflexivity|]). rewrite L. discriminate.
Qed.

(** The answer to a failed statement carries [error], and the health
    check carries [timestamp]: neither is one of the four fields. *)
Lemma error_field_outside_envelope :
  keys (json_body (get_users failing Sqlite.empty))
  = ["success"; "message"; "error"]
  /\ ~ envelope envelope_fields (get_users failing Sqlite.empty)
  /\ keys (json_body (health noon)) = ["success"; "message"; "timestamp"]
  /\ ~ envelope envelope_fields (health noon).
Proof.
  split; [reflexivity|]. split; [|split; [reflexivity|]].
  - intros [props [E [I _]]]. injection E as <-.
    specialize (I "error"). cbn in I. intuition discriminate.
  - intros [props [E [I _]]]. injection E as <-.
    specialize (I "timestamp"). cbn in I. intuition discriminate.
Qed.


(** Ann passes validation as she is, with her latitude sent as the text
    12.5; stored and read back, the latitude is the number 12.5. *)
Lemma text_coordinate_read_back_as_number :
  failures ann = Normal []
  /\ sanitized ann = ann
  /\ field_value "address.geo.lat" ann = Some (JStr "12.5")
  /\ option_map (field_value "address.geo.lat")
       (through_storage noon Sqlite.empty ann)
     = Some (Some (JNum "12.5"))
  /\ ~ round_trips noon Sqlite.empty ann.
Proof.
  assert (T : option_map (field_value "address.geo.lat")
                (through_storage noon Sqlite.empty ann)
              = Some (Some (JNum "12.5"))) by reflexivity.
  repeat (split; [reflexivity|]).
  intros [user [S Fs]]. rewrite S in T. cbn [option_map] in T.
  injection T as T. rewrite (Fs "address.geo.lat") in T by (cbn; tauto).
  discriminate.
Qed.


(** In production a failed listing still shows the engine's message. *)
Example production_listing_shows_detail :
  get_users failing Sqlite.empty
  = storage_failure "Failed to fetch users" "SQLITE_IOERR: disk I/O error".
Proof. reflexivity. Qed.

(** * The further properties at work on the small runtime *)


Lemma delete_removes_user_witness :
  delete_user_handler noon (incoming "1" (JObj [])) with_ann_bob
  = (user_deleted, remove_row 1 with_ann_bob)
  /\ get_user noon (incoming "1" (JObj [])) (remove_row 1 with_ann_bob)
     = user_not_found.
Proof.
  destruct (delete_removes_user noon "1" (JObj []) with_ann_bob ann_row)
    as [D [_ [_ [_ [G _]]]]].
  - reflexivity.
  - repeat constructor; cbn; intuition discriminate.
  - left. reflexivity.
  - reflexivity.
  - split; assumption.
Defined.




(** Ann is deleted; the next user does not get her id. *)
Lemma rowid_never_reused_witness :
  exists row,
    fst (post_users noon bob (serve [delete_ann] with_ann))
    = created_ok (Sqlite.id row)
    /\ (Sqlite.id ann_row < Sqlite.id row)%Z.
Proof.
  destruct (rowid_never_reused noon bob with_ann ann_row [delete_ann]
              (fst (post_users noon bob (serve [delete_ann] with_ann)))
              (snd (post_users noon bob (serve [delete_ann] with_ann))))
    as [row [R [_ L]]].
  - intros r [<-|[]]. cbn. lia.
  - left. reflexivity.
  - apply surjective_pairing.
  - reflexivity.
  - exists row. split; assumption.
Defined.



(** An email sent as an array is bound as the text the driver makes of
    every object: the first such create is stored beside Ann, the second
    collides with the first. *)
Example array_email_bound_as_object :
  email_param (with_field "email" (JArr [JStr "ann@example.org"]) ann)
  = Some "[object Object]"
  /\ status (fst (post_users noon
                    (with_field "email" (JArr [JStr "ann@example.org"]) ann)
                    with_ann)) = 201
  /\ fst (post_users noon
           (with_field "email" (JArr [JStr "bob@example.org"]) ann)
           (snd (post_users noon
                   (with_field "email" (JArr [JStr "ann@example.org"]) ann)
                   with_ann)))
     = conflict.
Proof. repeat split. Qed.

(** A name that is an object with a [toString] of its own, [null], makes
    the first chain throw: create and update are answered by the error
    handling middleware. *)
Example unrendered_name_answered_500 :
  post_users noon (with_field "name" (JObj [("toString", JNull)]) ann) with_ann
  = (error_handler noon not_primitive, with_ann)
  /\ put_user noon "1" (with_field "name" (JObj [("toString", JNull)]) ann)
       with_ann
     = (error_handler noon not_primitive, with_ann).
Proof. split; reflexivity. Qed.

Lemma create_then_get_round_trip_witness :
  exists row,
    post_users noon dan with_ann_bob
    = (created_ok (Sqlite.id row), append_row row with_ann_bob)
    /\ get_user noon (incoming "3" (JObj [])) (append_row row with_ann_bob)
       = found row
    /\ field_value "address.geo.lat" (user_json row)
       = field_value "address.geo.lat" dan.
Proof.
  destruct (create_then_get_round_trip noon noon "3" dan (JObj [])
              with_ann_bob) as [row [C [G F]]].
  - reflexivity.
  - reflexivity.
  - repeat constructor; cbn; intuition discriminate.
  - reflexivity.
  - split; [split|split].
    + intros f I. cbn [text_fields In] in I.
      repeat (destruct I as [<-|I]; [eexists; reflexivity|]). destruct I.
    + intros f I. cbn [In] in I.
      repeat (destruct I as [<-|I]; [eexists; split; reflexivity|]).
      destruct I.
    + intros f s I H. cbn [trimmed_fields In] in I.
      repeat (destruct I as [<-|I]; [injection H as <-; reflexivity|]).
      destruct I.
    + intros s H. injection H as <-. reflexivity.
  - intros r [<-|[<-|[]]]; discriminate.
  - reflexivity.
  - exists row. repeat split; try assumption.
    apply F. cbn [field_names In]. tauto.
Defined.


Lemma update_keeps_list_order_witness :
  map Sqlite.id
    (listing (snd (put_user noon "1" (person "Anna" "ann@example.org" [])
                     with_ann_bob)))
  = map Sqlite.id (listing with_ann_bob).
Proof.
  destruct (update_keeps_list_order noon noon "1"
              (person "Anna" "ann@example.org" []) with_ann_bob)
    as [_ [_ [I _]]].
  - repeat constructor; cbn; intuition discriminate.
  - reflexivity.
  - exact I.
Defined.


Lemma delete_keeps_list_order_witness :
  get_users noon (snd (delete_user_handler noon (incoming "1" (JObj []))
                         with_ann_bob))
  = listed (filter (fun o => negb (Sqlite.id o =? 1)%Z) (listing with_ann_bob)).
Proof.
  apply (delete_keeps_list_order noon noon "1" (JObj []) with_ann_bob 1);
    reflexivity.
Defined.

